(** * logz: a leveled process-wide logger and its fan-out writer

    Shallow embedding of [multiwriter.go] and [logz.go].

    Conventions of the embedding.
    - A Go [io.Writer] value that is not nil is a [Writer].  Interface
      variables that the source compares with nil ([w] in [newLogger], the
      package variable [write], the [*log.Logger] variables) are [option]s.
    - Concrete writers are identified by their pointer: [File p] is an
      [*os.File], [Sink p c] any other writer type ([c] tells whether it also
      implements [io.Closer]).  [multiWriter] is this package's fan-out
      writer, [ioMultiWriter] the one returned by the standard library's
      [io.MultiWriter].
    - Byte slices and strings are [string]s; [len] is the byte length.
    - What a sink's [Write] returns is not decided by this package: it is
      a parameter ([sink_Write]) that may depend on everything written so
      far.  Every invocation of a sink is recorded in a journal of
      [Event]s, whether it fails or not.  A sink's [Write] returns: sinks
      that panic or block for ever, and nil entries in a slice of writers,
      are outside the model.
    - A call ends by returning, by a panic or by [os.Exit]; the functions
      of logz.go are state transformers with such an outcome. *)

From Stdlib Require Import List String Ascii Bool ZArith NArith Lia.
Import ListNotations.
Open Scope string_scope.
Open Scope list_scope.
Set Warnings "-register-all".

(** ** Writers *)

Inductive Writer : Type :=
| File (ptr : nat)
| Sink (ptr : nat) (closer : bool)
| multiWriter (writers : list Writer)
| ioMultiWriter (writers : list Writer).

(** [os.Stdout] and [os.Stderr] are package variables holding [*os.File]s. *)
Definition os_Stdout : Writer := File 1.
Definition os_Stderr : Writer := File 2.

Inductive Event : Type :=
| EvWrite (w : Writer) (p : string)
| EvClose (w : Writer).

Definition Journal := list Event.

(** Result of a [Write]: the count and the error (None is nil). *)
Definition WriteResult := (Z * option string)%type.

Definition len (p : string) : Z := Z.of_nat (String.length p).

Definition io_ErrShortWrite : string := "short write".

(** A writer that is neither of the two fan-out types. *)
Definition atomic (w : Writer) : bool :=
  match w with
  | File _ | Sink _ _ => true
  | multiWriter _ | ioMultiWriter _ => false
  end.

(** The type switch of [MultiWriter], to this package's fan-out type, fails. *)
Definition is_leaf (w : Writer) : bool :=
  match w with
  | multiWriter _ => false
  | _ => true
  end.

Module MW.

Section Writing.

Variable sink_Write : Journal -> Writer -> string -> WriteResult.

(** [Write] dispatches on the dynamic type.  The [multiWriter] case is
    multiwriter.go's method: every writer of the slice is called in turn and
    what it returns is dropped.  The [ioMultiWriter] case is the standard
    library's: it stops at the first error or short write. *)
Fixpoint Write (w : Writer) (p : string) (j : Journal) : Journal * WriteResult :=
  match w with
  | File _ | Sink _ _ => (j ++ [EvWrite w p], sink_Write j w p)
  | multiWriter ws =>
      let j' :=
        (fix range (ws : list Writer) (j : Journal) : Journal :=
           match ws with
           | [] => j
           | w' :: rest => range rest (fst (Write w' p j))
           end) ws j in
      (j', (len p, None))
  | ioMultiWriter ws =>
      (fix range (ws : list Writer) (j : Journal) : Journal * WriteResult :=
         match ws with
         | [] => (j, (len p, None))
         | w' :: rest =>
             let '(j1, (n, err)) := Write w' p j in
             match err with
             | Some e => (j1, (n, Some e))
             | None =>
                 if Z.eqb n (len p) then range rest j1
                 else (j1, (n, Some io_ErrShortWrite))
             end
         end) ws j
  end.

(** The loop of [multiWriter.Write] on its own. *)
Fixpoint broadcast (ws : list Writer) (p : string) (j : Journal) : Journal :=
  match ws with
  | [] => j
  | w :: rest => broadcast rest p (fst (Write w p j))
  end.

End Writing.

(** [MultiWriter]: the loop appends to [allWriters], splicing the writers of
    an argument that is itself a [*multiWriter]. *)
Definition MultiWriter (writers : list Writer) : Writer :=
  multiWriter
    (fold_left
       (fun allWriters w =>
          match w with
          | multiWriter mws => allWriters ++ mws
          | _ => allWriters ++ [w]
          end)
       writers []).

(** The writers a value contributes to a composition. *)
Definition spliced (w : Writer) : list Writer :=
  match w with
  | multiWriter mws => mws
  | _ => [w]
  end.

(** A history of calls of [MultiWriter]: an argument is a writer of
    another type, or the result of an earlier call.  [eval] performs the
    calls, [leaves] lists the writers at the tips, left to right. *)
Inductive Composition : Type :=
| Leaf (w : Writer)
| Compose (args : list Composition).

Fixpoint eval (c : Composition) : Writer :=
  match c with
  | Leaf w => w
  | Compose args => MultiWriter (map eval args)
  end.

Fixpoint leaves (c : Composition) : list Writer :=
  match c with
  | Leaf w => [w]
  | Compose args => flat_map leaves args
  end.

(** The tips are leaves: no [multiWriter] literal is smuggled in, the type
    is not exported. *)
Fixpoint from_leaves (c : Composition) : bool :=
  match c with
  | Leaf w => is_leaf w
  | Compose args => forallb from_leaves args
  end.

End MW.

(** ** The logger (logz.go) *)

Module Logz.

(** [type LogLevel byte]: the five constants are 0..4, a caller can pass any
    byte.  Levels are only compared, never computed with. *)
Definition LogLevel := N.

Definition LogLevelTrace : LogLevel := 0%N.
Definition LogLevelInfo : LogLevel := 1%N.
Definition LogLevelWarning : LogLevel := 2%N.
Definition LogLevelError : LogLevel := 3%N.
Definition LogLevelCritical : LogLevel := 4%N.

(** One of the five severities. *)
Definition severity (l : LogLevel) : Prop := (l <= LogLevelCritical)%N.

(** Values passed as [interface{}]: the ones this package builds itself,
    and strings for the caller's. *)
Inductive Value : Type :=
| VString (s : string)
| VError (msg : string)
| VLevel (l : LogLevel).

Definition error := string.
Definition NotInitializedErr : error := "Logz is not initialized".
Definition InitializedErr : error := "Logz is already initialized".

(** The run-time panic of a method call through a nil interface. *)
Definition nil_dereference : Value :=
  VError "invalid memory address or nil pointer dereference".

(** [log.LstdFlags] is [Ldate | Ltime], [log.Lshortfile] is [1 << 4]. *)
Definition log_LstdFlags : Z := 3.
Definition log_Lshortfile : Z := 16.

(** What the standard library and the process supply: the results of the
    sinks' writes and closes, the formatting verbs, the line a [log.Logger]
    composes from its prefix, its flags, the call depth and the message (it
    reads the clock and the position of the caller of the emit function),
    and the text of [debug.Stack()].  The stack text names the emit
    function it is taken in: no statement below compares the stack texts of
    two functions. *)
Record Runtime : Type := {
  sink_Write : Journal -> Writer -> string -> WriteResult;
  sink_Close : Journal -> Writer -> option error;
  fmt_Sprint : list Value -> string;
  fmt_Sprintf : string -> list Value -> string;
  fmt_Sprintln : list Value -> string;
  log_line : string -> Z -> Z -> string -> string;
  debug_Stack : string
}.

(** A [*log.Logger] as built by [log.New]. *)
Record Logger : Type := {
  l_out : Writer;
  l_prefix : string;
  l_flag : Z
}.

Definition log_New (out : Writer) (prefix : string) (flag : Z) : Logger :=
  {| l_out := out; l_prefix := prefix; l_flag := flag |}.

(** The package variables. *)
Record Globals : Type := {
  initialized : bool;
  lTrace : option Logger;
  lInfo : option Logger;
  lWarning : option Logger;
  lError : option Logger;
  lCritical : option Logger;
  logStack : LogLevel;
  write : option Writer
}.

(** The zero values the package starts with. *)
Definition zero_Globals : Globals :=
  {| initialized := false;
     lTrace := None; lInfo := None; lWarning := None; lError := None;
     lCritical := None;
     logStack := 0%N;
     write := None |}.

Record State : Type := {
  vars : Globals;
  journal : Journal
}.

Definition start : State := {| vars := zero_Globals; journal := [] |}.

(** How a call ends: it returns, it panics, or it ends the process. *)
Inductive Outcome (A : Type) : Type :=
| Returns (a : A)
| Panics (v : Value)
| Exits (code : Z).

Arguments Returns {A} a.
Arguments Panics {A} v.
Arguments Exits {A} code.

Definition M (A : Type) : Type := State -> State * Outcome A.

Definition ret {A} (a : A) : M A := fun s => (s, Returns a).

Definition bind {A B} (m : M A) (k : A -> M B) : M B :=
  fun s =>
    match m s with
    | (s', Returns a) => k a s'
    | (s', Panics v) => (s', Panics v)
    | (s', Exits c) => (s', Exits c)
    end.

Notation "x <- m ;; k" := (bind m (fun x => k))
  (at level 61, m at next level, right associativity).
Notation "m ;; k" := (bind m (fun _ => k))
  (at level 61, right associativity).

Definition get_vars : M Globals := fun s => (s, Returns (vars s)).

Definition put_vars (g : Globals) : M unit :=
  fun s => ({| vars := g; journal := journal s |}, Returns tt).

Definition panic {A} (v : Value) : M A := fun s => (s, Panics v).

Definition os_Exit {A} (code : Z) : M A := fun s => (s, Exits code).

Definition set_initialized (b : bool) (g : Globals) : Globals :=
  {| initialized := b;
     lTrace := lTrace g; lInfo := lInfo g; lWarning := lWarning g;
     lError := lError g; lCritical := lCritical g;
     logStack := logStack g;
     write := write g |}.

Section Program.

Variable rt : Runtime.

(** A call of [w.Write(p)]. *)
Definition do_Write (w : Writer) (p : string) : M WriteResult :=
  fun s =>
    let r := MW.Write (sink_Write rt) w p (journal s) in
    ({| vars := vars s; journal := fst r |}, Returns (snd r)).

(** [w.(io.Closer)]: files close, fan-out writers have no [Close]. *)
Definition is_Closer (w : Writer) : bool :=
  match w with
  | File _ => true
  | Sink _ closer => closer
  | multiWriter _ | ioMultiWriter _ => false
  end.

Definition do_Close (w : Writer) : M (option error) :=
  fun s =>
    ({| vars := vars s; journal := journal s ++ [EvClose w] |},
     Returns (sink_Close rt (journal s) w)).

(** The [Output] method of a [log.Logger]: one [Write] of the composed line. *)
Definition Output (l : Logger) (calldepth : Z) (s : string) : M (option error) :=
  r <- do_Write (l_out l) (log_line rt (l_prefix l) (l_flag l) calldepth s) ;;
  ret (snd r).

(** The default logger of package log writes to [os.Stderr]. *)
Definition log_std : Logger := log_New os_Stderr "" log_LstdFlags.

Definition log_Print (v : list Value) : M unit :=
  Output log_std 2 (fmt_Sprint rt v) ;; ret tt.

Definition log_Println (v : list Value) : M unit :=
  Output log_std 2 (fmt_Sprintln rt v) ;; ret tt.

Definition fmt_Fprintln (w : option Writer) (v : list Value) : M unit :=
  match w with
  | None => panic nil_dereference
  | Some w' => do_Write w' (fmt_Sprintln rt v) ;; ret tt
  end.

(** [io.MultiWriter] of the standard library splices its own fan-out type. *)
Definition io_MultiWriter (writers : list Writer) : Writer :=
  ioMultiWriter
    (flat_map (fun w => match w with ioMultiWriter l => l | _ => [w] end)
       writers).

(** [out != w] compares interface values: equal dynamic types and equal
    pointers.  Here [w] is nil or [os.Stdout]; a fan-out writer is never
    the same pointer as either. *)
Definition same_writer (a b : Writer) : bool :=
  match a, b with
  | File p, File q => Nat.eqb p q
  | Sink p _, Sink q _ => Nat.eqb p q
  | _, _ => false
  end.

Definition iface_eqb (out : Writer) (w : option Writer) : bool :=
  match w with
  | None => false
  | Some w' => same_writer out w'
  end.

Definition getLogPrefix (level : LogLevel) : string :=
  match level with
  | 0%N => "TRACE|"
  | 1%N => " INFO|"
  | 2%N => " WARN|"
  | 3%N => "ERROR|"
  | 4%N => "FATAL|"
  | _ => ""
  end.

Definition newLogger (level : LogLevel) (out : Writer)
    (logStdLevel logOutLevel : LogLevel) (flags : Z) : option Logger :=
  let w : option Writer :=
    if (logStdLevel <=? level)%N then Some os_Stdout else None in
  let w : option Writer :=
    if (logOutLevel <=? level)%N && negb (iface_eqb out w) then
      match w with
      | Some w' => Some (io_MultiWriter [w'; out])
      | None => Some out
      end
    else w in
  match w with
  | None => None
  | Some w' => Some (log_New w' (getLogPrefix level) flags)
  end.

(** [Init].  The assignments to the package variables are one update of
    the record.  [out] is a writer: a nil output is outside the model. *)
Definition Init (out : Writer) (logStdLevel logOutLevel stackLevel : LogLevel)
    (logFileName : bool) : M (option error) :=
  g <- get_vars ;;
  if initialized g then ret (Some InitializedErr)
  else
    let flags := log_LstdFlags in
    let flags := if logFileName then Z.lor flags log_Lshortfile else flags in
    put_vars
      {| initialized := true;
         lTrace := newLogger LogLevelTrace out logStdLevel logOutLevel flags;
         lInfo := newLogger LogLevelInfo out logStdLevel logOutLevel flags;
         lWarning := newLogger LogLevelWarning out logStdLevel logOutLevel flags;
         lError := newLogger LogLevelError out logStdLevel logOutLevel flags;
         lCritical := newLogger LogLevelCritical out logStdLevel logOutLevel flags;
         logStack := stackLevel;
         write := Some out |} ;;
    ret None.

(** The variables as a successful [Init] leaves them. *)
Definition configured (out : Writer) (logStdLevel logOutLevel stackLevel : LogLevel)
    (logFileName : bool) : Globals :=
  let flags :=
    if logFileName then Z.lor log_LstdFlags log_Lshortfile else log_LstdFlags in
  {| initialized := true;
     lTrace := newLogger LogLevelTrace out logStdLevel logOutLevel flags;
     lInfo := newLogger LogLevelInfo out logStdLevel logOutLevel flags;
     lWarning := newLogger LogLevelWarning out logStdLevel logOutLevel flags;
     lError := newLogger LogLevelError out logStdLevel logOutLevel flags;
     lCritical := newLogger LogLevelCritical out logStdLevel logOutLevel flags;
     logStack := stackLevel;
     write := Some out |}.

Definition getLogger (level : LogLevel) : M (option Logger) :=
  g <- get_vars ;;
  match level with
  | 0%N => ret (lTrace g)
  | 1%N => ret (lInfo g)
  | 2%N => ret (lWarning g)
  | 3%N => ret (lError g)
  | 4%N => ret (lCritical g)
  | _ => panic (VString (fmt_Sprintf rt "Invalid log level %v" [VLevel level]))
  end.

(** The part every emit function has after it has its logger and its
    message: the line, then the stack when the level reaches [logStack]. *)
Definition emit (log : option Logger) (level : LogLevel) (msg : string) : M unit :=
  match log with
  | Some l => Output l 2 msg ;; ret tt
  | None => ret tt
  end ;;
  g <- get_vars ;;
  if (logStack g <=? level)%N
  then fmt_Fprintln (write g) [VString (debug_Stack rt)]
  else ret tt.

Definition Log (level : LogLevel) (v : list Value) : M unit :=
  g <- get_vars ;;
  if negb (initialized g) then log_Print [VError NotInitializedErr]
  else
    log <- getLogger level ;;
    emit log level (fmt_Sprint rt v).

Definition Logf (level : LogLevel) (format : string) (v : list Value) : M unit :=
  g <- get_vars ;;
  if negb (initialized g) then log_Print [VError NotInitializedErr]
  else
    log <- getLogger level ;;
    emit log level (fmt_Sprintf rt format v).

(** The ten functions with a fixed level read their logger variable
    directly; [exits] is the [os.Exit(1)] of the two critical ones. *)
Definition emit_fixed (logger : Globals -> option Logger) (level : LogLevel)
    (msg : string) (exits : bool) : M unit :=
  g <- get_vars ;;
  if negb (initialized g) then log_Print [VError NotInitializedErr]
  else
    emit (logger g) level msg ;;
    if exits then os_Exit 1 else ret tt.

Definition Trace (v : list Value) : M unit :=
  emit_fixed lTrace LogLevelTrace (fmt_Sprint rt v) false.
Definition Tracef (format : string) (v : list Value) : M unit :=
  emit_fixed lTrace LogLevelTrace (fmt_Sprintf rt format v) false.
Definition Info (v : list Value) : M unit :=
  emit_fixed lInfo LogLevelInfo (fmt_Sprint rt v) false.
Definition Infof (format : string) (v : list Value) : M unit :=
  emit_fixed lInfo LogLevelInfo (fmt_Sprintf rt format v) false.
Definition Warning (v : list Value) : M unit :=
  emit_fixed lWarning LogLevelWarning (fmt_Sprint rt v) false.
Definition Warningf (format : string) (v : list Value) : M unit :=
  emit_fixed lWarning LogLevelWarning (fmt_Sprintf rt format v) false.
Definition Error (v : list Value) : M unit :=
  emit_fixed lError LogLevelError (fmt_Sprint rt v) false.
Definition Errorf (format : string) (v : list Value) : M unit :=
  emit_fixed lError LogLevelError (fmt_Sprintf rt format v) false.
Definition Critical (v : list Value) : M unit :=
  emit_fixed lCritical LogLevelCritical (fmt_Sprint rt v) true.
Definition Criticalf (format : string) (v : list Value) : M unit :=
  emit_fixed lCritical LogLevelCritical (fmt_Sprintf rt format v) true.

(** [Close].  [r] is what [recover()] returns: a value only when [Close]
    runs as a deferred call while the goroutine panics. *)
Definition Close (r : option Value) : M (option error) :=
  g <- get_vars ;;
  if negb (initialized g) then ret (Some NotInitializedErr)
  else
    match r with
    | Some rv =>
        let err :=
          match rv with
          | VError _ => rv
          | _ => VError (fmt_Sprintf rt "%v" [rv])
          end in
        Log LogLevelCritical [err]
    | None => ret tt
    end ;;
    g <- get_vars ;;
    put_vars (set_initialized false g) ;;
    match write g with
    | Some w => if is_Closer w then do_Close w ;; ret tt else ret tt
    | None => ret tt
    end ;;
    match r with
    | Some rv => panic rv
    | None => ret None
    end.

Definition GetLogLevel (str : string) : M LogLevel :=
  if String.eqb str "trace" then ret LogLevelTrace
  else if String.eqb str "info" || String.eqb str "information" then ret LogLevelInfo
  else if String.eqb str "warning" || String.eqb str "warn" then ret LogLevelWarning
  else if String.eqb str "error" then ret LogLevelError
  else if String.eqb str "fatal" then ret LogLevelCritical
  else log_Println [VString "Invalid LogLevel"; VString str] ;; ret LogLevelTrace.

(** The exported functions as calls, to speak of every call and of
    sequences of calls. *)
Inductive Call : Type :=
| CallInit (out : Writer) (logStdLevel logOutLevel stackLevel : LogLevel)
    (logFileName : bool)
| CallClose (r : option Value)
| CallLog (level : LogLevel) (v : list Value)
| CallLogf (level : LogLevel) (format : string) (v : list Value)
| CallTrace (v : list Value)
| CallTracef (format : string) (v : list Value)
| CallInfo (v : list Value)
| CallInfof (format : string) (v : list Value)
| CallWarning (v : list Value)
| CallWarningf (format : string) (v : list Value)
| CallError (v : list Value)
| CallErrorf (format : string) (v : list Value)
| CallCritical (v : list Value)
| CallCriticalf (format : string) (v : list Value)
| CallGetLogLevel (str : string).

Inductive Result : Type :=
| RUnit
| RError (e : option error)
| RLevel (l : LogLevel).

Definition as_unit (m : M unit) : M Result := m ;; ret RUnit.

Definition run (c : Call) : M Result :=
  match c with
  | CallInit out std sink stk fn => e <- Init out std sink stk fn ;; ret (RError e)
  | CallClose r => e <- Close r ;; ret (RError e)
  | CallLog level v => as_unit (Log level v)
  | CallLogf level format v => as_unit (Logf level format v)
  | CallTrace v => as_unit (Trace v)
  | CallTracef format v => as_unit (Tracef format v)
  | CallInfo v => as_unit (Info v)
  | CallInfof format v => as_unit (Infof format v)
  | CallWarning v => as_unit (Warning v)
  | CallWarningf format v => as_unit (Warningf format v)
  | CallError v => as_unit (Error v)
  | CallErrorf format v => as_unit (Errorf format v)
  | CallCritical v => as_unit (Critical v)
  | CallCriticalf format v => as_unit (Criticalf format v)
  | CallGetLogLevel str => l <- GetLogLevel str ;; ret (RLevel l)
  end.

(** The state after a sequence of calls.  A call that panics is taken as
    recovered by its caller, so the sequence goes on; nothing follows a call
    that exits, and going on after it only adds sequences. *)
Fixpoint run_seq (cs : list Call) (s : State) : State :=
  match cs with
  | [] => s
  | c :: rest => run_seq rest (fst (run c s))
  end.

(** The level an emit call logs at, and the message it formats. *)
Definition emit_level (c : Call) : option LogLevel :=
  match c with
  | CallLog level _ | CallLogf level _ _ => Some level
  | CallTrace _ | CallTracef _ _ => Some LogLevelTrace
  | CallInfo _ | CallInfof _ _ => Some LogLevelInfo
  | CallWarning _ | CallWarningf _ _ => Some LogLevelWarning
  | CallError _ | CallErrorf _ _ => Some LogLevelError
  | CallCritical _ | CallCriticalf _ _ => Some LogLevelCritical
  | CallInit _ _ _ _ _ | CallClose _ | CallGetLogLevel _ => None
  end.

Definition emit_message (c : Call) : string :=
  match c with
  | CallLog _ v | CallTrace v | CallInfo v | CallWarning v | CallError v
  | CallCritical v => fmt_Sprint rt v
  | CallLogf _ format v | CallTracef format v | CallInfof format v
  | CallWarningf format v | CallErrorf format v | CallCriticalf format v =>
      fmt_Sprintf rt format v
  | CallInit _ _ _ _ _ | CallClose _ | CallGetLogLevel _ => ""
  end.

(** The ten functions named after a severity. *)
Definition fixed_level (c : Call) : bool :=
  match c with
  | CallTrace _ | CallTracef _ _ | CallInfo _ | CallInfof _ _
  | CallWarning _ | CallWarningf _ _ | CallError _ | CallErrorf _ _
  | CallCritical _ | CallCriticalf _ _ => true
  | _ => false
  end.

Definition is_Critical (c : Call) : bool :=
  match c with
  | CallCritical _ | CallCriticalf _ _ => true
  | _ => false
  end.

Definition is_Close (c : Call) : bool :=
  match c with
  | CallClose _ => true
  | _ => false
  end.

(** No call of a sequence is [Close]. *)
Definition no_Close (cs : list Call) : bool :=
  forallb (fun c => negb (is_Close c)) cs.

(** The logger variable of a severity, as [getLogger] selects it. *)
Definition logger_of (g : Globals) (level : LogLevel) : option Logger :=
  match level with
  | 0%N => lTrace g
  | 1%N => lInfo g
  | 2%N => lWarning g
  | 3%N => lError g
  | 4%N => lCritical g
  | _ => None
  end.

(** The journal after the line of a message went to a logger, if any. *)
Definition after_line (log : option Logger) (msg : string) (j : Journal) : Journal :=
  match log with
  | Some l =>
      fst (MW.Write (sink_Write rt) (l_out l)
             (log_line rt (l_prefix l) (l_flag l) 2 msg) j)
  | None => j
  end.

(** The journal after the stack text went to a writer. *)
Definition after_stack (out : Writer) (j : Journal) : Journal :=
  fst (MW.Write (sink_Write rt) out (fmt_Sprintln rt [VString (debug_Stack rt)]) j).

(** The notice of the fallback path, as the default logger writes it. *)
Definition fallback_notice : Event :=
  EvWrite os_Stderr
    (log_line rt "" log_LstdFlags 2 (fmt_Sprint rt [VError NotInitializedErr])).

End Program.

(** The sinks a write to a writer is handed on to, when none of them
    fails: the tips of the fan-out tree, left to right. *)
Fixpoint sinks (w : Writer) : list Writer :=
  match w with
  | File _ | Sink _ _ => [w]
  | multiWriter ws => flat_map sinks ws
  | ioMultiWriter ws => flat_map sinks ws
  end.

Definition sinks_of (d : option Writer) : list Writer :=
  match d with
  | Some w => sinks w
  | None => []
  end.

(** *** A concrete run-time, to evaluate the program on examples

    Every write to a [Sink] with an odd pointer fails, every other one
    succeeds; formatting concatenates. *)
Definition show (v : Value) : string :=
  match v with
  | VString s => s
  | VError msg => msg
  | VLevel l => if (l <? 5)%N then "level" else "unknown level"
  end.

Definition demo_sink_Write (j : Journal) (w : Writer) (p : string) : WriteResult :=
  match w with
  | Sink ptr _ =>
      if Nat.odd ptr then (0%Z, Some "sink failed") else (len p, None)
  | _ => (len p, None)
  end.

Definition newline : string := String (ascii_of_nat 10) "".

Definition demo : Runtime :=
  {| sink_Write := demo_sink_Write;
     sink_Close := fun _ _ => Some "close failed";
     fmt_Sprint := fun v => String.concat "" (map show v);
     fmt_Sprintf := fun format v => (format ++ String.concat "" (map show v))%string;
     fmt_Sprintln := fun v => (String.concat " " (map show v) ++ newline)%string;
     log_line := fun prefix _ _ msg => (prefix ++ msg ++ newline)%string;
     debug_Stack := "goroutine 1 [running]" |}.

(** The same run-time with standard output gone: every write to
    [os.Stdout] fails. *)
Definition stdout_down : Runtime :=
  {| sink_Write := fun j w p =>
       match w with
       | File 1 => (0%Z, Some "write /dev/stdout: broken pipe")
       | _ => demo_sink_Write j w p
       end;
     sink_Close := sink_Close demo;
     fmt_Sprint := fmt_Sprint demo;
     fmt_Sprintf := fmt_Sprintf demo;
     fmt_Sprintln := fmt_Sprintln demo;
     log_line := log_line demo;
     debug_Stack := debug_Stack demo |}.

End Logz.

(** * Properties *)

(** ** The fan-out writer *)

Section CompositionInduction.

Variable P : MW.Composition -> Prop.
Hypothesis P_Leaf : forall w, P (MW.Leaf w).
Hypothesis P_Compose : forall args, Forall P args -> P (MW.Compose args).

Fixpoint Composition_nested_ind (c : MW.Composition) : P c :=
  match c with
  | MW.Leaf w => P_Leaf w
  | MW.Compose args =>
      P_Compose args
        ((fix all (l : list MW.Composition) : Forall P l :=
            match l with
            | [] => Forall_nil P
            | a :: rest => Forall_cons a (Composition_nested_ind a) (all rest)
            end) args)
  end.

End CompositionInduction.

Lemma Write_multiWriter sw ws p j :
  MW.Write sw (multiWriter ws) p j = (MW.broadcast sw ws p j, (len p, None)).
Proof.
  simpl. f_equal. revert j.
  induction ws as [|w rest IH]; intro j; simpl; [reflexivity | apply IH].
Qed.

Lemma broadcast_fold_left sw ws p j :
  MW.broadcast sw ws p j = fold_left (fun j' w => fst (MW.Write sw w p j')) ws j.
Proof.
  revert j. induction ws as [|w rest IH]; intro j; simpl; [reflexivity | apply IH].
Qed.

Lemma broadcast_atomic sw ws p j :
  forallb atomic ws = true ->
  MW.broadcast sw ws p j = j ++ map (fun w => EvWrite w p) ws.
Proof.
  revert j. induction ws as [|w rest IH]; intros j H; simpl in *.
  - now rewrite app_nil_r.
  - apply andb_prop in H as [Hw Hrest].
    rewrite IH by assumption.
    destruct w; try discriminate; simpl; now rewrite <- app_assoc.
Qed.

Lemma MultiWriter_loop ws acc :
  fold_left
    (fun allWriters w =>
       match w with
       | multiWriter mws => allWriters ++ mws
       | _ => allWriters ++ [w]
       end) ws acc
  = acc ++ flat_map MW.spliced ws.
Proof.
  revert acc. induction ws as [|w rest IH]; intro acc; simpl.
  - now rewrite app_nil_r.
  - rewrite IH. destruct w; simpl; now rewrite <- app_assoc.
Qed.

Lemma MultiWriter_spliced ws :
  MW.MultiWriter ws = multiWriter (flat_map MW.spliced ws).
Proof. unfold MW.MultiWriter. now rewrite MultiWriter_loop. Qed.

Lemma eval_args_spliced args :
  Forall
    (fun c =>
       MW.from_leaves c = true ->
       MW.spliced (MW.eval c) = MW.leaves c
       /\ forallb is_leaf (MW.leaves c) = true) args ->
  forallb MW.from_leaves args = true ->
  flat_map MW.spliced (map MW.eval args) = flat_map MW.leaves args
  /\ forallb is_leaf (flat_map MW.leaves args) = true.
Proof.
  induction 1 as [|a rest Ha _ IH]; simpl; intro H; [now split|].
  apply andb_prop in H as [Hfa Hfrest].
  destruct (Ha Hfa) as [Ea La], (IH Hfrest) as [Er Lr].
  rewrite Ea, Er, forallb_app, La, Lr. now split.
Qed.

Lemma eval_spliced c :
  MW.from_leaves c = true ->
  MW.spliced (MW.eval c) = MW.leaves c /\ forallb is_leaf (MW.leaves c) = true.
Proof.
  induction c as [w | args IH] using Composition_nested_ind; intro H.
  - simpl in *. split; [destruct w; try discriminate; reflexivity | now rewrite H].
  - change (MW.eval (MW.Compose args)) with (MW.MultiWriter (map MW.eval args)).
    rewrite MultiWriter_spliced.
    exact (eval_args_spliced args IH H).
Qed.

(** C2.  A [Write] on a fan-out writer calls the [Write] of every writer
    it owns once, in the order of the slice, and returns [len(p)] and no
    error, whatever the writers return: [sw], the results of the sinks, is
    arbitrary and the journal does not depend on it.  The second part
    states it for any owned writers, the third for owned sinks, where each
    call leaves one event. *)
Theorem multiWriter_Write_broadcast :
  forall (sw : Journal -> Writer -> string -> WriteResult)
         (ws : list Writer) (p : string) (j : Journal),
    snd (MW.Write sw (multiWriter ws) p j) = (len p, None)
    /\ fst (MW.Write sw (multiWriter ws) p j)
       = fold_left (fun j' w => fst (MW.Write sw w p j')) ws j
    /\ (forallb atomic ws = true ->
        fst (MW.Write sw (multiWriter ws) p j)
        = j ++ map (fun w => EvWrite w p) ws).
Proof.
  intros sw ws p j. rewrite Write_multiWriter. simpl.
  split; [reflexivity|]. split.
  - apply broadcast_fold_left.
  - apply broadcast_atomic.
Qed.

(** The first and the third sink fail, all three are written to. *)
Lemma multiWriter_Write_broadcast_witness :
  forallb atomic [Sink 1 false; File 4; Sink 3 true] = true
  /\ Logz.demo_sink_Write [] (Sink 1 false) "line" = (0%Z, Some "sink failed")
  /\ MW.Write Logz.demo_sink_Write
       (multiWriter [Sink 1 false; File 4; Sink 3 true]) "line" []
     = ([EvWrite (Sink 1 false) "line"; EvWrite (File 4) "line";
         EvWrite (Sink 3 true) "line"], (4%Z, None)).
Proof.
  split; [reflexivity|]. split; [reflexivity|].
  destruct (multiWriter_Write_broadcast Logz.demo_sink_Write
              [Sink 1 false; File 4; Sink 3 true] "line" []) as (Hres & _ & Hjournal).
  rewrite (surjective_pairing (MW.Write _ _ _ _)).
  rewrite Hres, (Hjournal eq_refl). reflexivity.
Defined.

(** C3.  Whatever the history of [MultiWriter] calls that produced the
    arguments, the result owns the leaves of the history, left to right,
    and so no fan-out writer of this package; a [Write] on it calls each
    owned leaf once, in that order (a leaf that occurs twice in the history
    is owned twice). *)
Theorem MultiWriter_flat :
  forall args : list MW.Composition,
    forallb MW.from_leaves args = true ->
    MW.MultiWriter (map MW.eval args) = multiWriter (flat_map MW.leaves args)
    /\ forallb is_leaf (flat_map MW.leaves args) = true
    /\ forall (sw : Journal -> Writer -> string -> WriteResult)
              (p : string) (j : Journal),
         fst (MW.Write sw (MW.MultiWriter (map MW.eval args)) p j)
         = fold_left (fun j' w => fst (MW.Write sw w p j'))
             (flat_map MW.leaves args) j
         /\ (forallb atomic (flat_map MW.leaves args) = true ->
             fst (MW.Write sw (MW.MultiWriter (map MW.eval args)) p j)
             = j ++ map (fun w => EvWrite w p) (flat_map MW.leaves args)).
Proof.
  intros args H.
  destruct (eval_spliced (MW.Compose args) H) as [E L].
  change (MW.eval (MW.Compose args)) with (MW.MultiWriter (map MW.eval args)) in E.
  rewrite MultiWriter_spliced in E |- *. simpl in E, L. rewrite E.
  split; [reflexivity|]. split; [exact L|].
  intros sw p j. rewrite Write_multiWriter. simpl. split.
  - apply broadcast_fold_left.
  - apply broadcast_atomic.
Qed.

(** Three levels of composition, one sink used twice. *)
Lemma MultiWriter_flat_witness :
  forallb MW.from_leaves
    [MW.Leaf (Sink 0 false);
     MW.Compose [MW.Leaf (File 1);
                 MW.Compose [MW.Compose [MW.Leaf (Sink 2 true)];
                             MW.Leaf (Sink 0 false)]]] = true
  /\ MW.MultiWriter
       [Sink 0 false;
        MW.MultiWriter [File 1;
                        MW.MultiWriter [MW.MultiWriter [Sink 2 true];
                                        Sink 0 false]]]
     = multiWriter [Sink 0 false; File 1; Sink 2 true; Sink 0 false]
  /\ fst (MW.Write Logz.demo_sink_Write
            (MW.MultiWriter
               [Sink 0 false;
                MW.MultiWriter [File 1;
                                MW.MultiWriter [MW.MultiWriter [Sink 2 true];
                                                Sink 0 false]]]) "p" [])
     = [EvWrite (Sink 0 false) "p"; EvWrite (File 1) "p";
        EvWrite (Sink 2 true) "p"; EvWrite (Sink 0 false) "p"].
Proof.
  split; [reflexivity|].
  destruct (MultiWriter_flat
              [MW.Leaf (Sink 0 false);
               MW.Compose [MW.Leaf (File 1);
                           MW.Compose [MW.Compose [MW.Leaf (Sink 2 true)];
                                       MW.Leaf (Sink 0 false)]]] eq_refl)
    as (Hflat & _ & Hwrite).
  split; [exact Hflat|].
  destruct (Hwrite Logz.demo_sink_Write "p" []) as [_ Hsinks].
  exact (Hsinks eq_refl).
Defined.

(** ** The logger *)

Import Logz.

Ltac level_cases L H :=
  unfold severity, LogLevelCritical in H;
  let E := fresh "E" in
  assert (E : L = 0%N \/ L = 1%N \/ L = 2%N \/ L = 3%N \/ L = 4%N) by lia;
  destruct E as [E | [E | [E | [E | E]]]]; subst L.

Lemma emit_run rt log level msg s out :
  write (vars s) = Some out ->
  emit rt log level msg s
  = ({| vars := vars s;
        journal :=
          if (logStack (vars s) <=? level)%N
          then after_stack rt out (after_line rt log msg (journal s))
          else after_line rt log msg (journal s) |},
     Returns tt).
Proof.
  intro Hw. destruct s as [g j]. simpl in Hw.
  unfold emit, Output, do_Write, bind, ret, get_vars, after_line, after_stack.
  destruct log as [l|]; simpl; rewrite Hw;
    destruct (logStack g <=? level)%N; reflexivity.
Qed.

Lemma emit_keeps_vars rt log level msg s :
  vars (fst (emit rt log level msg s)) = vars s.
Proof.
  destruct s as [g j].
  unfold emit, Output, do_Write, bind, ret, get_vars, fmt_Fprintln, panic.
  destruct log as [l|]; simpl;
    destruct (logStack g <=? level)%N; simpl; try reflexivity;
    destruct (write g); reflexivity.
Qed.

(** An emit call at a severity, on an initialized logger that holds its
    output: the line to the logger of the level if there is one, the stack
    to the stored output if the level reaches [logStack], and the exit of
    the two critical functions. *)
Lemma run_emit rt c L s out :
  initialized (vars s) = true ->
  write (vars s) = Some out ->
  emit_level c = Some L ->
  severity L ->
  run rt c s
  = ({| vars := vars s;
        journal :=
          if (logStack (vars s) <=? L)%N
          then after_stack rt out
                 (after_line rt (logger_of (vars s) L) (emit_message rt c) (journal s))
          else after_line rt (logger_of (vars s) L) (emit_message rt c) (journal s) |},
     if is_Critical c then Exits 1%Z else Returns RUnit).
Proof.
  intros Hi Hw Hl Hs.
  destruct c; simpl in Hl; try discriminate; injection Hl as <-;
    try (level_cases level Hs);
    unfold run, as_unit, Log, Logf, Trace, Tracef, Info, Infof, Warning,
      Warningf, Error, Errorf, Critical, Criticalf, emit_fixed, getLogger;
    unfold bind at 1 2; unfold get_vars at 1; rewrite Hi; simpl;
    try (unfold bind at 1 2; unfold get_vars at 1; simpl);
    unfold bind; rewrite (emit_run _ _ _ _ _ _ Hw); reflexivity.
Qed.

Lemma Init_fresh out std sink stk fn s :
  initialized (vars s) = false ->
  Init out std sink stk fn s
  = ({| vars := configured out std sink stk fn; journal := journal s |},
     Returns None).
Proof.
  intro H. unfold Init, bind, get_vars, put_vars, ret. simpl. now rewrite H.
Qed.

Lemma Init_again out std sink stk fn s :
  initialized (vars s) = true ->
  Init out std sink stk fn s = (s, Returns (Some InitializedErr)).
Proof.
  intro H. unfold Init, bind, get_vars, ret. simpl. now rewrite H.
Qed.

Lemma getLogger_severity rt L s :
  severity L -> getLogger rt L s = (s, Returns (logger_of (vars s) L)).
Proof. intro H. level_cases L H; reflexivity. Qed.

Lemma getLogger_invalid rt level s :
  (LogLevelCritical < level)%N ->
  getLogger rt level s
  = (s, Panics (VString (fmt_Sprintf rt "Invalid log level %v" [VLevel level]))).
Proof.
  unfold LogLevelCritical. intro H.
  destruct level as [|p]; [lia|].
  do 3 (try match goal with q : positive |- _ => destruct q end);
    try lia; reflexivity.
Qed.

Lemma run_keeps_vars rt c s :
  initialized (vars s) = true ->
  is_Close c = false ->
  vars (fst (run rt c s)) = vars s.
Proof.
  intros Hi Hc.
  assert (Hfixed : forall logger level msg exits,
             vars (fst (as_unit (emit_fixed rt logger level msg exits) s)) = vars s).
  { intros. unfold as_unit, emit_fixed. unfold bind at 1 2.
    unfold get_vars at 1. rewrite Hi. simpl. unfold bind at 1.
    pose proof (emit_keeps_vars rt (logger (vars s)) level msg s) as Hk.
    destruct (emit rt (logger (vars s)) level msg s) as [s' [[]|v|code]];
      simpl in *; try assumption.
    destruct exits; simpl; assumption. }
  assert (Hany : forall level msg,
             vars (fst (as_unit (log <- getLogger rt level ;; emit rt log level msg) s))
             = vars s).
  { intros. unfold as_unit. unfold bind at 1 2.
    destruct (N.le_gt_cases level LogLevelCritical) as [Hle | Hgt].
    - rewrite (getLogger_severity rt level s Hle).
      pose proof (emit_keeps_vars rt (logger_of (vars s) level) level msg s) as Hk.
      destruct (emit rt (logger_of (vars s) level) level msg s) as [s' [[]|v|code]];
        simpl in *; assumption.
    - rewrite (getLogger_invalid rt level s Hgt). reflexivity. }
  destruct c; try discriminate; simpl;
    try (apply Hfixed).
  - unfold bind. rewrite (Init_again _ _ _ _ _ _ Hi). reflexivity.
  - unfold Log. unfold as_unit, bind at 1 2 3. unfold get_vars at 1. rewrite Hi. simpl.
    apply (Hany level (fmt_Sprint rt v)).
  - unfold Logf. unfold as_unit, bind at 1 2 3. unfold get_vars at 1. rewrite Hi. simpl.
    apply (Hany level (fmt_Sprintf rt format v)).
  - unfold GetLogLevel, log_Println, Output, do_Write, bind, ret.
    repeat match goal with |- context [if ?b then _ else _] => destruct b end;
      reflexivity.
Qed.

Lemma run_seq_keeps_vars rt cs s :
  initialized (vars s) = true ->
  no_Close cs = true ->
  vars (run_seq rt cs s) = vars s.
Proof.
  revert s. induction cs as [|c rest IH]; intros s Hi Hn; simpl; [reflexivity|].
  simpl in Hn. apply andb_prop in Hn as [Hc Hrest].
  apply negb_true_iff in Hc.
  pose proof (run_keeps_vars rt c s Hi Hc) as Hk.
  rewrite IH; [assumption | now rewrite Hk | assumption].
Qed.

(** After a successful [Init] and any calls but [Close], the variables are
    those [Init] stored. *)
Lemma vars_after_Init rt s0 out std sink stk fn between :
  initialized (vars s0) = false ->
  no_Close between = true ->
  vars (run_seq rt between (fst (Init out std sink stk fn s0)))
  = configured out std sink stk fn.
Proof.
  intros H0 Hn. rewrite (Init_fresh _ _ _ _ _ _ H0). simpl.
  now rewrite run_seq_keeps_vars.
Qed.

Lemma logger_of_configured out std sink stk fn L :
  severity L ->
  logger_of (configured out std sink stk fn) L
  = newLogger L out std sink
      (if fn then Z.lor log_LstdFlags log_Lshortfile else log_LstdFlags).
Proof. intro H. level_cases L H; reflexivity. Qed.

Lemma same_writer_Stdout_eq out :
  same_writer out os_Stdout = true <-> out = os_Stdout.
Proof.
  unfold os_Stdout. split.
  - destruct out as [ptr | | |]; simpl; try discriminate.
    intro H. apply Nat.eqb_eq in H. now subst ptr.
  - intros ->. reflexivity.
Qed.



Lemma sinks_compose_Stdout out :
  sinks (io_MultiWriter [os_Stdout; out]) = os_Stdout :: sinks out.
Proof. destruct out; simpl; now rewrite ?app_nil_r. Qed.

Lemma logger_after_Init rt s0 out std sink stk fn between L :
  initialized (vars s0) = false ->
  no_Close between = true ->
  severity L ->
  logger_of (vars (run_seq rt between (fst (Init out std sink stk fn s0)))) L
  = newLogger L out std sink
      (if fn then Z.lor log_LstdFlags log_Lshortfile else log_LstdFlags).
Proof.
  intros H0 Hn HL. rewrite vars_after_Init by assumption.
  now apply logger_of_configured.
Qed.




(** C6.  A second [Init], with no [Close] since the first, returns
    [InitializedErr] and changes nothing: the loggers of the five
    severities, the stack threshold, the stored output and the flag are
    those of the first [Init], whatever was called in between and whatever
    the second call asks for. *)
Theorem Init_twice :
  forall (rt : Runtime) (s0 : State) (out : Writer)
         (std sink stk : LogLevel) (fn : bool) (between : list Call)
         (out' : Writer) (std' sink' stk' : LogLevel) (fn' : bool),
    initialized (vars s0) = false ->
    no_Close between = true ->
    let s1 := fst (Init out std sink stk fn s0) in
    let s2 := run_seq rt between s1 in
    snd (Init out std sink stk fn s0) = Returns None
    /\ Init out' std' sink' stk' fn' s2 = (s2, Returns (Some InitializedErr))
    /\ vars s2 = vars s1
    /\ initialized (vars s2) = true
    /\ logStack (vars s2) = stk
    /\ write (vars s2) = Some out
    /\ (forall L, severity L ->
          logger_of (vars s2) L
          = newLogger L out std sink
              (if fn then Z.lor log_LstdFlags log_Lshortfile else log_LstdFlags)).
Proof.
  intros rt s0 out std sink stk fn between out' std' sink' stk' fn' H0 Hn s1 s2.
  assert (Hv : vars s2 = configured out std sink stk fn)
    by (apply vars_after_Init; assumption).
  assert (H1 : vars s1 = configured out std sink stk fn)
    by (unfold s1; now rewrite Init_fresh).
  split; [now rewrite Init_fresh|].
  split; [apply Init_again; now rewrite Hv|].
  split; [now rewrite Hv, H1|].
  rewrite Hv. repeat split.
  intros L HL. now apply logger_of_configured.
Qed.

Lemma Init_twice_witness :
  initialized (vars start) = false
  /\ no_Close [CallWarning [VString "disk"]; CallLog 9%N []] = true
  /\ Init os_Stdout LogLevelTrace LogLevelTrace LogLevelTrace true
       (run_seq demo [CallWarning [VString "disk"]; CallLog 9%N []]
          (fst (Init (Sink 8 true) LogLevelWarning LogLevelInfo LogLevelError
                  false start)))
     = (run_seq demo [CallWarning [VString "disk"]; CallLog 9%N []]
          (fst (Init (Sink 8 true) LogLevelWarning LogLevelInfo LogLevelError
                  false start)),
        Returns (Some InitializedErr)).
Proof.
  split; [reflexivity|]. split; [reflexivity|].
  destruct (Init_twice demo start (Sink 8 true) LogLevelWarning LogLevelInfo
              LogLevelError false [CallWarning [VString "disk"]; CallLog 9%N []]
              os_Stdout LogLevelTrace LogLevelTrace LogLevelTrace true
              eq_refl eq_refl) as (_ & Hsecond & _).
  exact Hsecond.
Defined.

Lemma newLogger_disabled L out std sink flags :
  (L < std)%N -> (L < sink)%N -> newLogger L out std sink flags = None.
Proof.
  intros Hstd Hsink. unfold newLogger.
  apply N.leb_gt in Hstd. apply N.leb_gt in Hsink.
  now rewrite Hstd, Hsink.
Qed.

Lemma fixed_level_severity c :
  fixed_level c = true -> exists L, emit_level c = Some L /\ severity L.
Proof.
  destruct c; try discriminate; intros _; eexists; (split; [reflexivity|]);
    unfold severity, LogLevelTrace, LogLevelInfo, LogLevelWarning,
      LogLevelError, LogLevelCritical; lia.
Qed.

Lemma is_Critical_level c :
  is_Critical c = true -> emit_level c = Some LogLevelCritical.
Proof. destruct c; try discriminate; reflexivity. Qed.

(** The fallback path: the notice goes to the default logger, the call
    returns, also the two critical ones. *)
Lemma run_fallback rt c L s :
  initialized (vars s) = false ->
  emit_level c = Some L ->
  run rt c s
  = ({| vars := vars s; journal := journal s ++ [fallback_notice rt] |},
     Returns RUnit).
Proof.
  intros Hi Hl.
  destruct c; try discriminate;
    unfold run, as_unit, Log, Logf, Trace, Tracef, Info, Infof, Warning,
      Warningf, Error, Errorf, Critical, Criticalf, emit_fixed;
    unfold bind at 1 2; unfold get_vars at 1; rewrite Hi; reflexivity.
Qed.

Lemma emit_outcome rt log level msg s :
  snd (emit rt log level msg s) = Returns tt
  \/ snd (emit rt log level msg s) = Panics nil_dereference.
Proof.
  destruct s as [g j].
  unfold emit, Output, do_Write, bind, ret, get_vars, fmt_Fprintln, panic.
  destruct log as [l|]; simpl;
    destruct (logStack g <=? level)%N; simpl; auto;
    destruct (write g); simpl; auto.
Qed.

Lemma Log_body_no_exit rt level msg s code :
  snd ((log <- getLogger rt level ;; emit rt log level msg) s) <> Exits code.
Proof.
  unfold bind.
  destruct (N.le_gt_cases level LogLevelCritical) as [Hle | Hgt].
  - rewrite (getLogger_severity rt level s Hle).
    destruct (emit_outcome rt (logger_of (vars s) level) level msg s) as [E | E];
      rewrite E; discriminate.
  - rewrite (getLogger_invalid rt level s Hgt). discriminate.
Qed.

Lemma Log_no_exit rt level v s code :
  snd (Log rt level v s) <> Exits code.
Proof.
  unfold Log. unfold bind at 1. unfold get_vars at 1.
  destruct (initialized (vars s)); simpl.
  - apply Log_body_no_exit.
  - discriminate.
Qed.

Lemma Logf_no_exit rt level format v s code :
  snd (Logf rt level format v s) <> Exits code.
Proof.
  unfold Logf. unfold bind at 1. unfold get_vars at 1.
  destruct (initialized (vars s)); simpl.
  - apply Log_body_no_exit.
  - discriminate.
Qed.

Lemma emit_fixed_exit rt logger level msg exits s code :
  snd (emit_fixed rt logger level msg exits s) = Exits code ->
  exits = true /\ code = 1%Z /\ initialized (vars s) = true.
Proof.
  unfold emit_fixed. unfold bind at 1 2. unfold get_vars at 1.
  destruct (initialized (vars s)); simpl; [|discriminate].
  destruct (emit_outcome rt (logger (vars s)) level msg s) as [E | E];
    destruct (emit rt (logger (vars s)) level msg s) as [s' o];
    simpl in E; subst o; simpl; [|discriminate].
  destruct exits; simpl; [|discriminate].
  intro H. injection H as <-. auto.
Qed.

Lemma as_unit_exit (m : M unit) s code :
  snd (as_unit m s) = Exits code -> snd (m s) = Exits code.
Proof.
  unfold as_unit, bind, ret. destruct (m s) as [s' [[]|v|c]]; simpl;
    congruence.
Qed.

Lemma Close_no_exit rt r s code :
  snd (Close rt r s) <> Exits code.
Proof.
  unfold Close. unfold bind at 1. unfold get_vars at 1.
  destruct (initialized (vars s)); simpl; [|discriminate].
  unfold bind at 1.
  destruct r as [rv|].
  - pose proof (Log_no_exit rt LogLevelCritical
                  [match rv with VError _ => rv | _ => VError (fmt_Sprintf rt "%v" [rv]) end]
                  s) as Hlog.
    destruct (Log rt LogLevelCritical _ s) as [s' [[]|v|c]]; simpl in *;
      [|discriminate | exfalso; now apply (Hlog c)].
    unfold bind, get_vars, put_vars, do_Close, ret, panic. simpl.
    destruct (write (vars s')) as [w|]; [destruct (is_Closer w)|]; discriminate.
  - unfold bind, get_vars, put_vars, do_Close, ret. simpl.
    destruct (write (vars s)) as [w|]; [destruct (is_Closer w)|]; discriminate.
Qed.

(** Only the two critical functions end the process, with status 1 and
    only on an initialized logger. *)
Lemma run_exit_only rt c s code :
  snd (run rt c s) = Exits code ->
  is_Critical c = true /\ code = 1%Z /\ initialized (vars s) = true.
Proof.
  destruct c; simpl;
    try (intro H; apply as_unit_exit in H;
         first [ now apply Log_no_exit in H
               | now apply Logf_no_exit in H
               | apply emit_fixed_exit in H as (Hx & Hc & Hi);
                 first [discriminate Hx | now auto] ]).
  - unfold bind. destruct (initialized (vars s)) eqn:Hi.
    + rewrite (Init_again _ _ _ _ _ _ Hi). discriminate.
    + rewrite (Init_fresh _ _ _ _ _ _ Hi). discriminate.
  - unfold bind. pose proof (Close_no_exit rt r s) as Hc.
    destruct (Close rt r s) as [s' [e|v|c]]; simpl in *;
      try discriminate. intro H. exfalso. now apply (Hc c).
  - unfold GetLogLevel, log_Println, Output, do_Write, bind, ret.
    repeat match goal with |- context [if ?b then _ else _] => destruct b end;
      discriminate.
Qed.

(** An emit call at a severity after [Init]: what it leaves and how it
    ends. *)
Lemma run_emit_configured rt s0 out std sink stk fn between c L :
  initialized (vars s0) = false ->
  no_Close between = true ->
  emit_level c = Some L ->
  severity L ->
  let s1 := run_seq rt between (fst (Init out std sink stk fn s0)) in
  let line_done :=
    after_line rt (logger_of (vars s1) L) (emit_message rt c) (journal s1) in
  run rt c s1
  = ({| vars := vars s1;
        journal := if (stk <=? L)%N then after_stack rt out line_done
                   else line_done |},
     if is_Critical c then Exits 1%Z else Returns RUnit).
Proof.
  intros H0 Hn Hl Hs s1 line_done.
  assert (Hv : vars s1 = configured out std sink stk fn)
    by (apply vars_after_Init; assumption).
  rewrite (run_emit rt c L s1 out); try assumption;
    try (rewrite Hv; reflexivity).
  unfold line_done. rewrite Hv. reflexivity.
Qed.

(** C4 (amended).  At a severity below both cutoffs, [Init] resolves no
    logger, and an emit call after it is past the initialized check (no
    fallback notice), leaves the variables alone and ends as at any other
    level.  It writes nothing if the level is also below the stack cutoff;
    if the level reaches the stack cutoff, the stack text goes to the
    configured output and nothing else is written. *)
Theorem disabled_level_output :
  forall (rt : Runtime) (s0 : State) (out : Writer)
         (std sink stk : LogLevel) (fn : bool) (between : list Call)
         (c : Call) (L : LogLevel),
    initialized (vars s0) = false ->
    no_Close between = true ->
    emit_level c = Some L ->
    severity L ->
    (L < std)%N ->
    (L < sink)%N ->
    let s1 := run_seq rt between (fst (Init out std sink stk fn s0)) in
    logger_of (vars s1) L = None
    /\ vars (fst (run rt c s1)) = vars s1
    /\ snd (run rt c s1) = (if is_Critical c then Exits 1%Z else Returns RUnit)
    /\ ((L < stk)%N -> journal (fst (run rt c s1)) = journal s1)
    /\ ((stk <= L)%N ->
        journal (fst (run rt c s1)) = after_stack rt out (journal s1)).
Proof.
  intros rt s0 out std sink stk fn between c L H0 Hn Hl Hs Hstd Hsink s1.
  assert (Hnone : logger_of (vars s1) L = None).
  { unfold s1. rewrite vars_after_Init, logger_of_configured by assumption.
    now apply newLogger_disabled. }
  pose proof (run_emit_configured rt s0 out std sink stk fn between c L
                H0 Hn Hl Hs) as Hrun.
  cbv zeta in Hrun. fold s1 in Hrun. rewrite Hnone in Hrun. simpl in Hrun.
  rewrite Hrun. simpl.
  repeat split; try assumption.
  - intro Hlt. apply N.leb_gt in Hlt. now rewrite Hlt.
  - intro Hle. apply N.leb_le in Hle. now rewrite Hle.
Qed.

(** Trace is disabled by both cutoffs and below the stack cutoff: silent. *)
Lemma disabled_level_output_witness :
  initialized (vars start) = false
  /\ no_Close [] = true
  /\ emit_level (CallTracef "%v" [VString "x"]) = Some LogLevelTrace
  /\ severity LogLevelTrace
  /\ (LogLevelTrace < LogLevelInfo)%N
  /\ (LogLevelTrace < LogLevelWarning)%N
  /\ (LogLevelTrace < LogLevelError)%N
  /\ journal
       (fst (run demo (CallTracef "%v" [VString "x"])
               (fst (Init (Sink 8 false) LogLevelInfo LogLevelWarning
                       LogLevelError false start))))
     = [].
Proof.
  assert (Hs : severity LogLevelTrace)
    by (unfold severity, LogLevelTrace, LogLevelCritical; lia).
  assert (H1 : (LogLevelTrace < LogLevelInfo)%N) by reflexivity.
  assert (H2 : (LogLevelTrace < LogLevelWarning)%N) by reflexivity.
  assert (H3 : (LogLevelTrace < LogLevelError)%N) by reflexivity.
  repeat (split; [first [reflexivity | assumption]|]).
  destruct (disabled_level_output demo start (Sink 8 false) LogLevelInfo
              LogLevelWarning LogLevelError false []
              (CallTracef "%v" [VString "x"]) LogLevelTrace
              eq_refl eq_refl eq_refl Hs H1 H2) as (_ & _ & _ & Hquiet & _).
  exact (Hquiet H3).
Defined.

(** C4 as stated fails: with the stack cutoff at Trace, a Trace call that
    both cutoffs disable still writes the stack to the configured output. *)
Lemma disabled_level_not_silent :
  ~ (forall (rt : Runtime) (s0 : State) (out : Writer)
            (std sink stk : LogLevel) (fn : bool) (c : Call) (L : LogLevel),
        initialized (vars s0) = false ->
        emit_level c = Some L ->
        severity L ->
        (L < std)%N ->
        (L < sink)%N ->
        journal (fst (run rt c (fst (Init out std sink stk fn s0))))
        = journal (fst (Init out std sink stk fn s0))).
Proof.
  intro H.
  specialize (H demo start (Sink 8 false) LogLevelCritical LogLevelCritical
                LogLevelTrace false (CallTrace [VString "x"]) LogLevelTrace
                eq_refl eq_refl).
  assert (Hs : severity LogLevelTrace)
    by (unfold severity, LogLevelTrace, LogLevelCritical; lia).
  specialize (H Hs eq_refl eq_refl).
  vm_compute in H. discriminate H.
Qed.

(** C5.  An emit call at a severity that reaches the stack cutoff writes
    the stack text to the output given to [Init], after the line of the
    message: to that output itself, not to the destination of the level,
    and also when the level has no destination. *)
Theorem stack_dump_to_out :
  forall (rt : Runtime) (s0 : State) (out : Writer)
         (std sink stk : LogLevel) (fn : bool) (between : list Call)
         (c : Call) (L : LogLevel),
    initialized (vars s0) = false ->
    no_Close between = true ->
    emit_level c = Some L ->
    severity L ->
    (stk <= L)%N ->
    let s1 := run_seq rt between (fst (Init out std sink stk fn s0)) in
    let line_done :=
      after_line rt (logger_of (vars s1) L) (emit_message rt c) (journal s1) in
    journal (fst (run rt c s1))
    = fst (MW.Write (sink_Write rt) out
             (fmt_Sprintln rt [VString (debug_Stack rt)]) line_done)
    /\ (logger_of (vars s1) L = None ->
        journal (fst (run rt c s1))
        = fst (MW.Write (sink_Write rt) out
                 (fmt_Sprintln rt [VString (debug_Stack rt)]) (journal s1)))
    /\ (atomic out = true ->
        journal (fst (run rt c s1))
        = line_done ++ [EvWrite out (fmt_Sprintln rt [VString (debug_Stack rt)])]).
Proof.
  intros rt s0 out std sink stk fn between c L H0 Hn Hl Hs Hstk s1 line_done.
  pose proof (run_emit_configured rt s0 out std sink stk fn between c L
                H0 Hn Hl Hs) as Hrun.
  cbv zeta in Hrun. fold s1 in Hrun. fold line_done in Hrun.
  apply N.leb_le in Hstk. rewrite Hstk in Hrun. rewrite Hrun. simpl.
  unfold after_stack. split; [reflexivity|]. split.
  - intro Hnone. unfold line_done. now rewrite Hnone.
  - intro Ha. destruct out; try discriminate; reflexivity.
Qed.

(** Warning has no destination (both cutoffs are at Critical) and reaches
    the stack cutoff: the stack text is all that is written, to [out]. *)
Lemma stack_dump_to_out_witness :
  initialized (vars start) = false
  /\ no_Close [] = true
  /\ emit_level (CallWarning [VString "x"]) = Some LogLevelWarning
  /\ severity LogLevelWarning
  /\ (LogLevelInfo <= LogLevelWarning)%N
  /\ journal
       (fst (run demo (CallWarning [VString "x"])
               (fst (Init (Sink 8 false) LogLevelCritical LogLevelCritical
                       LogLevelInfo false start))))
     = [EvWrite (Sink 8 false) (fmt_Sprintln demo [VString "goroutine 1 [running]"])].
Proof.
  assert (Hs : severity LogLevelWarning)
    by (unfold severity, LogLevelWarning, LogLevelCritical; lia).
  assert (Hk : (LogLevelInfo <= LogLevelWarning)%N)
    by (unfold LogLevelInfo, LogLevelWarning; lia).
  repeat (split; [first [reflexivity | assumption]|]).
  destruct (stack_dump_to_out demo start (Sink 8 false) LogLevelCritical
              LogLevelCritical LogLevelInfo false []
              (CallWarning [VString "x"]) LogLevelWarning
              eq_refl eq_refl eq_refl Hs Hk) as (_ & _ & Hatomic).
  exact (Hatomic eq_refl).
Defined.

(** C8 (amended).  On an initialized logger, [Critical] and [Criticalf]
    end the process with status 1 once the emission is complete: the line
    went to the logger of Critical if there is one, the stack to the output
    if Critical reaches the stack cutoff; they do not return.  Called when
    the logger is not initialized, they write the fallback notice and
    return.  No other call ends the process. *)
Theorem Critical_exits :
  forall (rt : Runtime) (s0 : State) (out : Writer)
         (std sink stk : LogLevel) (fn : bool) (between : list Call)
         (c : Call),
    initialized (vars s0) = false ->
    no_Close between = true ->
    is_Critical c = true ->
    let s1 := run_seq rt between (fst (Init out std sink stk fn s0)) in
    let line_done :=
      after_line rt (lCritical (vars s1)) (emit_message rt c) (journal s1) in
    run rt c s1
    = ({| vars := vars s1;
          journal := if (stk <=? LogLevelCritical)%N
                     then after_stack rt out line_done else line_done |},
       Exits 1%Z)
    /\ (forall s, initialized (vars s) = false ->
          run rt c s
          = ({| vars := vars s; journal := journal s ++ [fallback_notice rt] |},
             Returns RUnit))
    /\ (forall (c' : Call) (s : State) (code : Z),
          snd (run rt c' s) = Exits code ->
          is_Critical c' = true /\ code = 1%Z /\ initialized (vars s) = true).
Proof.
  intros rt s0 out std sink stk fn between c H0 Hn Hc s1 line_done.
  assert (Hs : severity LogLevelCritical) by (unfold severity; lia).
  pose proof (run_emit_configured rt s0 out std sink stk fn between c
                LogLevelCritical H0 Hn (is_Critical_level c Hc) Hs) as Hrun.
  cbv zeta in Hrun. fold s1 in Hrun. rewrite Hc in Hrun.
  split; [exact Hrun|]. split.
  - intros s Hi. exact (run_fallback rt c _ s Hi (is_Critical_level c Hc)).
  - intros c' s code. apply run_exit_only.
Qed.

Lemma Critical_exits_witness :
  initialized (vars start) = false
  /\ no_Close [] = true
  /\ is_Critical (CallCriticalf "disk %v" [VString "full"]) = true
  /\ run demo (CallCriticalf "disk %v" [VString "full"])
       (fst (Init (Sink 8 false) LogLevelCritical LogLevelError
               LogLevelCritical false start))
     = ({| vars := configured (Sink 8 false) LogLevelCritical LogLevelError
                     LogLevelCritical false;
           journal :=
             [EvWrite os_Stdout (log_line demo "FATAL|" 3 2 "disk %vfull");
              EvWrite (Sink 8 false) (log_line demo "FATAL|" 3 2 "disk %vfull");
              EvWrite (Sink 8 false)
                (fmt_Sprintln demo [VString "goroutine 1 [running]"])] |},
        Exits 1%Z).
Proof.
  repeat (split; [reflexivity|]).
  destruct (Critical_exits demo start (Sink 8 false) LogLevelCritical
              LogLevelError LogLevelCritical false []
              (CallCriticalf "disk %v" [VString "full"])
              eq_refl eq_refl eq_refl) as (Hexit & _).
  exact Hexit.
Defined.

(** C8 as stated fails: before [Init], [Critical] returns to its caller. *)
Lemma Critical_returns_uninitialized :
  ~ (forall (rt : Runtime) (s : State) (v : list Value),
        exists code : Z, code <> 0%Z /\ snd (Critical rt v s) = Exits code).
Proof.
  intro H. destruct (H demo start [VString "x"]) as (code & _ & Hexit).
  vm_compute in Hexit. discriminate Hexit.
Qed.

(** C10.  After [Init], [Log] and [Logf] with a level above Critical panic
    with the invalid-level message before anything is written or changed;
    the ten functions named after a severity never panic. *)
Theorem invalid_level_panics :
  forall (rt : Runtime) (s0 : State) (out : Writer)
         (std sink stk : LogLevel) (fn : bool) (between : list Call)
         (level : LogLevel) (format : string) (v : list Value),
    initialized (vars s0) = false ->
    no_Close between = true ->
    (LogLevelCritical < level)%N ->
    let s1 := run_seq rt between (fst (Init out std sink stk fn s0)) in
    Log rt level v s1
    = (s1, Panics (VString (fmt_Sprintf rt "Invalid log level %v" [VLevel level])))
    /\ Logf rt level format v s1
       = (s1, Panics (VString (fmt_Sprintf rt "Invalid log level %v" [VLevel level])))
    /\ (forall (c : Call) (pv : Value),
          fixed_level c = true -> snd (run rt c s1) <> Panics pv).
Proof.
  intros rt s0 out std sink stk fn between level format v H0 Hn Hlevel s1.
  assert (Hv : vars s1 = configured out std sink stk fn)
    by (apply vars_after_Init; assumption).
  assert (Hi : initialized (vars s1) = true) by now rewrite Hv.
  split; [|split].
  - unfold Log. unfold bind at 1 2. unfold get_vars at 1. rewrite Hi. simpl.
    now rewrite getLogger_invalid.
  - unfold Logf. unfold bind at 1 2. unfold get_vars at 1. rewrite Hi. simpl.
    now rewrite getLogger_invalid.
  - intros c pv Hc.
    destruct (fixed_level_severity c Hc) as (L & Hl & Hs).
    pose proof (run_emit_configured rt s0 out std sink stk fn between c L
                  H0 Hn Hl Hs) as Hrun.
    cbv zeta in Hrun. fold s1 in Hrun. rewrite Hrun. simpl.
    destruct (is_Critical c); discriminate.
Qed.

Lemma invalid_level_panics_witness :
  initialized (vars start) = false
  /\ no_Close [] = true
  /\ (LogLevelCritical < 5)%N
  /\ Log demo 5%N [VString "x"]
       (fst (Init (Sink 8 false) LogLevelTrace LogLevelTrace LogLevelTrace
               false start))
     = (fst (Init (Sink 8 false) LogLevelTrace LogLevelTrace LogLevelTrace
               false start),
        Panics (VString "Invalid log level %vunknown level")).
Proof.
  repeat (split; [reflexivity|]).
  destruct (invalid_level_panics demo start (Sink 8 false) LogLevelTrace
              LogLevelTrace LogLevelTrace false [] 5%N "" [VString "x"]
              eq_refl eq_refl eq_refl) as (Hlog & _).
  exact Hlog.
Defined.

Lemma Close_uninitialized rt r s :
  initialized (vars s) = false ->
  Close rt r s = (s, Returns (Some NotInitializedErr)).
Proof.
  intro Hi. unfold Close. unfold bind at 1. unfold get_vars at 1.
  now rewrite Hi.
Qed.

Lemma Close_initialized rt r s s' out :
  initialized (vars s) = true ->
  match r with
  | Some rv =>
      Log rt LogLevelCritical
        [match rv with
         | VError _ => rv
         | _ => VError (fmt_Sprintf rt "%v" [rv])
         end]
  | None => ret tt
  end s = (s', Returns tt) ->
  write (vars s') = Some out ->
  Close rt r s
  = ({| vars := set_initialized false (vars s');
        journal := journal s' ++ (if is_Closer out then [EvClose out] else []) |},
     match r with
     | Some rv => Panics rv
     | None => Returns (@None error)
     end).
Proof.
  intros Hi Hp Hw. unfold Close. unfold bind at 1. unfold get_vars at 1.
  cbv beta iota. rewrite Hi. cbv beta iota delta [negb].
  unfold bind at 1. rewrite Hp.
  unfold bind, get_vars, put_vars, do_Close, ret, panic. simpl. rewrite Hw.
  destruct (is_Closer out), r; simpl; rewrite ?app_nil_r; reflexivity.
Qed.

Lemma as_unit_returns (m : M unit) s s' :
  as_unit m s = (s', Returns RUnit) -> m s = (s', Returns tt).
Proof.
  unfold as_unit, bind, ret.
  destruct (m s) as [t [[]|v|c]]; intro H; inversion H; reflexivity.
Qed.

(** C7 (amended).  [Close] on a logger that is not initialized returns
    [NotInitializedErr] and changes nothing.  On an initialized logger it
    clears the flag, so that every emit call after it takes the fallback
    path, and closes the stored output if that is a closer, whatever the
    close returns.  It then returns no error if no panic was recovered;
    if one was, the recovered value was logged at Critical before the
    teardown and [Close] panics with it again instead of returning. *)
Theorem Close_teardown :
  forall (rt : Runtime) (s0 : State) (out : Writer)
         (std sink stk : LogLevel) (fn : bool) (between : list Call)
         (r : option Value),
    initialized (vars s0) = false ->
    no_Close between = true ->
    let s1 := run_seq rt between (fst (Init out std sink stk fn s0)) in
    let s2 := fst (Close rt r s1) in
    let closing := if is_Closer out then [EvClose out] else [] in
    (forall (r' : option Value) (s : State),
        initialized (vars s) = false ->
        Close rt r' s = (s, Returns (Some NotInitializedErr)))
    /\ vars s2 = set_initialized false (vars s1)
    /\ initialized (vars s2) = false
    /\ (forall (c : Call) (L : LogLevel),
          emit_level c = Some L ->
          run rt c s2
          = ({| vars := vars s2; journal := journal s2 ++ [fallback_notice rt] |},
             Returns RUnit))
    /\ (r = None ->
        Close rt r s1
        = ({| vars := set_initialized false (vars s1);
              journal := journal s1 ++ closing |},
           Returns None))
    /\ (forall rv : Value,
          r = Some rv ->
          snd (Close rt r s1) = Panics rv
          /\ journal s2
             = journal
                 (fst (Log rt LogLevelCritical
                         [match rv with
                          | VError _ => rv
                          | _ => VError (fmt_Sprintf rt "%v" [rv])
                          end] s1))
               ++ closing).
Proof.
  intros rt s0 out std sink stk fn between r H0 Hn s1 s2 closing.
  assert (Hv : vars s1 = configured out std sink stk fn)
    by (apply vars_after_Init; assumption).
  assert (Hi : initialized (vars s1) = true) by now rewrite Hv.
  assert (Hw : write (vars s1) = Some out) by now rewrite Hv.
  assert (Hclose :
            exists j,
              Close rt r s1
              = ({| vars := set_initialized false (vars s1);
                    journal := j ++ closing |},
                 match r with
                 | Some rv => Panics rv
                 | None => Returns (@None error)
                 end)
              /\ match r with
                 | Some rv =>
                     j = journal
                           (fst (Log rt LogLevelCritical
                                   [match rv with
                                    | VError _ => rv
                                    | _ => VError (fmt_Sprintf rt "%v" [rv])
                                    end] s1))
                 | None => j = journal s1
                 end).
  { destruct r as [rv|].
    - assert (Hs : severity LogLevelCritical) by (unfold severity; lia).
      pose proof (run_emit rt
                    (CallLog LogLevelCritical
                       [match rv with
                        | VError _ => rv
                        | _ => VError (fmt_Sprintf rt "%v" [rv])
                        end])
                    LogLevelCritical s1 out Hi Hw eq_refl Hs) as Hlog.
      simpl in Hlog. apply as_unit_returns in Hlog.
      eexists. split.
      + apply (Close_initialized rt (Some rv) s1 _ out Hi Hlog Hw).
      + rewrite Hlog. reflexivity.
    - exists (journal s1). split; [|reflexivity].
      apply (Close_initialized rt None s1 s1 out Hi eq_refl Hw). }
  destruct Hclose as (j & Hrun & Hj).
  assert (Hv2 : vars s2 = set_initialized false (vars s1))
    by (unfold s2; now rewrite Hrun).
  split; [intros r' s; apply Close_uninitialized|].
  split; [exact Hv2|].
  split; [now rewrite Hv2|].
  split; [intros c L Hl; apply (run_fallback rt c L); [now rewrite Hv2 | exact Hl]|].
  split.
  - intros ->. rewrite Hrun. now subst j.
  - intros rv ->. split.
    + now rewrite Hrun.
    + unfold s2. rewrite Hrun. simpl. now subst j.
Qed.

(** A closable output, no panic: the flag is cleared, the output closed
    (the close fails in this run-time), nil is returned and the next call
    gets the notice. *)
Lemma Close_teardown_witness :
  initialized (vars start) = false
  /\ no_Close [CallInfo [VString "up"]] = true
  /\ Close demo None
       (run_seq demo [CallInfo [VString "up"]]
          (fst (Init (Sink 8 true) LogLevelCritical LogLevelCritical
                  LogLevelCritical false start)))
     = ({| vars := set_initialized false
                     (configured (Sink 8 true) LogLevelCritical LogLevelCritical
                        LogLevelCritical false);
           journal := [EvClose (Sink 8 true)] |},
        Returns None).
Proof.
  repeat (split; [reflexivity|]).
  destruct (Close_teardown demo start (Sink 8 true) LogLevelCritical
              LogLevelCritical LogLevelCritical false [CallInfo [VString "up"]]
              None eq_refl eq_refl) as (_ & _ & _ & _ & Hnil & _).
  exact (Hnil eq_refl).
Defined.

(** C7 as stated fails: a [Close] that recovered a panic does not return
    nil, it panics again. *)
Lemma Close_rethrows :
  ~ (forall (rt : Runtime) (s : State) (r : option Value),
        initialized (vars s) = true ->
        snd (Close rt r s) = Returns None).
Proof.
  intro H.
  specialize (H demo
                (fst (Init (Sink 8 true) LogLevelTrace LogLevelTrace
                        LogLevelCritical false start))
                (Some (VString "boom")) eq_refl).
  vm_compute in H. discriminate H.
Qed.

(** C9.  [GetLogLevel] returns Trace for "trace", Info for "info" and
    "information", Warning for "warning" and "warn", Error for "error",
    Critical for "fatal", writing nothing; for every other string it has
    the default logger print the diagnostic and returns Trace. *)
Theorem GetLogLevel_names :
  forall (rt : Runtime) (str : string) (s : State),
    (str = "trace" -> GetLogLevel rt str s = (s, Returns LogLevelTrace))
    /\ (str = "info" \/ str = "information" ->
        GetLogLevel rt str s = (s, Returns LogLevelInfo))
    /\ (str = "warning" \/ str = "warn" ->
        GetLogLevel rt str s = (s, Returns LogLevelWarning))
    /\ (str = "error" -> GetLogLevel rt str s = (s, Returns LogLevelError))
    /\ (str = "fatal" -> GetLogLevel rt str s = (s, Returns LogLevelCritical))
    /\ (~ In str ["trace"; "info"; "information"; "warning"; "warn"; "error";
                  "fatal"] ->
        GetLogLevel rt str s
        = ({| vars := vars s;
              journal :=
                journal s
                ++ [EvWrite os_Stderr
                      (log_line rt "" log_LstdFlags 2
                         (fmt_Sprintln rt
                            [VString "Invalid LogLevel"; VString str]))] |},
           Returns LogLevelTrace)).
Proof.
  intros rt str s.
  repeat split.
  - intros ->. reflexivity.
  - intros [-> | ->]; reflexivity.
  - intros [-> | ->]; reflexivity.
  - intros ->. reflexivity.
  - intros ->. reflexivity.
  - intro Hnot. simpl in Hnot.
    unfold GetLogLevel.
    repeat match goal with
           | |- context [String.eqb str ?lit] =>
               let E := fresh "E" in
               destruct (String.eqb_spec str lit) as [E | E];
               [exfalso; apply Hnot; rewrite E; tauto | clear E]
           end.
    reflexivity.
Qed.

(** The names are case-sensitive: "Trace" is not a name. *)
Lemma GetLogLevel_names_witness :
  ~ In "Trace" ["trace"; "info"; "information"; "warning"; "warn"; "error";
                "fatal"]
  /\ GetLogLevel demo "warn" start = (start, Returns LogLevelWarning)
  /\ GetLogLevel demo "Trace" start
     = ({| vars := zero_Globals;
           journal :=
             [EvWrite os_Stderr
                (log_line demo "" log_LstdFlags 2 "Invalid LogLevel Trace
")] |},
        Returns LogLevelTrace).
Proof.
  assert (Hnot : ~ In "Trace" ["trace"; "info"; "information"; "warning";
                               "warn"; "error"; "fatal"]).
  { simpl. intros [H | [H | [H | [H | [H | [H | [H | []]]]]]]]; discriminate H. }
  destruct (GetLogLevel_names demo "warn" start) as (_ & _ & Hwarn & _).
  destruct (GetLogLevel_names demo "Trace" start) as (_ & _ & _ & _ & _ & Hother).
  split; [exact Hnot|]. split.
  - apply Hwarn. right. reflexivity.
  - exact (Hother Hnot).
Defined.

(** * Further properties of the two files *)

(** ** Composition of fan-out writers *)

Lemma flat_map_spliced_MultiWriter (groups : list (list Writer)) :
  flat_map MW.spliced (map MW.MultiWriter groups)
  = flat_map MW.spliced (List.concat groups).
Proof.
  induction groups as [|g rest IH]; simpl; [reflexivity|].
  rewrite MultiWriter_loop, flat_map_app, IH. reflexivity.
Qed.

(** X1.  How the arguments of [MultiWriter] are grouped by earlier calls
    does not matter: composing the compositions of some groups is composing
    all their writers at once.  In particular composing a single
    composition gives it back. *)
Theorem MultiWriter_regroup :
  forall groups : list (list Writer),
    MW.MultiWriter (map MW.MultiWriter groups) = MW.MultiWriter (List.concat groups)
    /\ forall ws : list Writer,
         MW.MultiWriter [MW.MultiWriter ws] = MW.MultiWriter ws.
Proof.
  intro groups. split.
  - rewrite !MultiWriter_spliced. f_equal. apply flat_map_spliced_MultiWriter.
  - intro ws. rewrite !MultiWriter_spliced. simpl. now rewrite app_nil_r.
Qed.

Lemma broadcast_app sw a b p j :
  MW.broadcast sw (a ++ b) p j = MW.broadcast sw b p (MW.broadcast sw a p j).
Proof.
  revert j. induction a as [|w rest IH]; intro j; simpl; [reflexivity | apply IH].
Qed.

(** X2.  A write to the composition of two lists of writers is a write to
    the composition of the first followed by a write to the composition of
    the second, also when results of sinks depend on what was written
    before; the composition of no writer writes nothing and still reports
    [len(p)] and no error. *)
Theorem MultiWriter_Write_app :
  forall (sw : Journal -> Writer -> string -> WriteResult)
         (a b : list Writer) (p : string) (j : Journal),
    fst (MW.Write sw (MW.MultiWriter (a ++ b)) p j)
    = fst (MW.Write sw (MW.MultiWriter b) p
             (fst (MW.Write sw (MW.MultiWriter a) p j)))
    /\ MW.Write sw (MW.MultiWriter []) p j = (j, (len p, None)).
Proof.
  intros sw a b p j. split; [|reflexivity].
  rewrite !MultiWriter_spliced, !Write_multiWriter. simpl.
  rewrite flat_map_app. apply broadcast_app.
Qed.

Section WriterInduction.

Variable P : Writer -> Prop.
Hypothesis P_File : forall ptr, P (File ptr).
Hypothesis P_Sink : forall ptr closer, P (Sink ptr closer).
Hypothesis P_multiWriter : forall ws, Forall P ws -> P (multiWriter ws).
Hypothesis P_ioMultiWriter : forall ws, Forall P ws -> P (ioMultiWriter ws).

Fixpoint Writer_nested_ind (w : Writer) : P w :=
  let all :=
    fix all (l : list Writer) : Forall P l :=
      match l with
      | [] => Forall_nil P
      | a :: rest => Forall_cons a (Writer_nested_ind a) (all rest)
      end in
  match w with
  | File ptr => P_File ptr
  | Sink ptr closer => P_Sink ptr closer
  | multiWriter ws => P_multiWriter ws (all ws)
  | ioMultiWriter ws => P_ioMultiWriter ws (all ws)
  end.

End WriterInduction.

(** What a write of [p] may add to the journal: writes of [p] itself, to
    sinks among [l]. *)
Lemma own_writes_app p (l1 l2 : list Writer) evs1 evs2 :
  Forall (fun e => exists s, e = EvWrite s p /\ In s l1) evs1 ->
  Forall (fun e => exists s, e = EvWrite s p /\ In s l2) evs2 ->
  Forall (fun e => exists s, e = EvWrite s p /\ In s (l1 ++ l2)) (evs1 ++ evs2).
Proof.
  intros H1 H2. apply Forall_app. split.
  - eapply Forall_impl; [|exact H1]. intros e (s & -> & Hin).
    exists s. split; [reflexivity | apply in_or_app; now left].
  - eapply Forall_impl; [|exact H2]. intros e (s & -> & Hin).
    exists s. split; [reflexivity | apply in_or_app; now right].
Qed.

Lemma own_writes_weaken p (l1 l2 : list Writer) evs :
  Forall (fun e => exists s, e = EvWrite s p /\ In s l1) evs ->
  Forall (fun e => exists s, e = EvWrite s p /\ In s (l1 ++ l2)) evs.
Proof.
  intro H. rewrite <- (app_nil_r evs).
  apply own_writes_app; [exact H | constructor].
Qed.

Lemma Write_appends_own_writes sw w p j :
  exists evs : list Event,
    fst (MW.Write sw w p j) = j ++ evs
    /\ Forall (fun e => exists s, e = EvWrite s p /\ In s (sinks w)) evs.
Proof.
  revert j. induction w as [ptr | ptr closer | ws IH | ws IH]
    using Writer_nested_ind; intro j.
  - exists [EvWrite (File ptr) p]. split; [reflexivity|].
    repeat constructor. eexists. split; [reflexivity | now left].
  - exists [EvWrite (Sink ptr closer) p]. split; [reflexivity|].
    repeat constructor. eexists. split; [reflexivity | now left].
  - rewrite Write_multiWriter. simpl. revert j.
    induction IH as [|w rest Hw _ IHrest]; intro j; simpl.
    + exists []. split; [now rewrite app_nil_r | constructor].
    + destruct (Hw j) as (evs1 & E1 & F1). rewrite E1.
      destruct (IHrest (j ++ evs1)) as (evs2 & E2 & F2). rewrite E2.
      exists (evs1 ++ evs2). split; [now rewrite app_assoc|].
      now apply own_writes_app.
  - simpl. revert j.
    induction IH as [|w rest Hw _ IHrest]; intro j.
    + exists []. split; [now rewrite app_nil_r | constructor].
    + destruct (Hw j) as (evs1 & E1 & F1).
      destruct (IHrest (j ++ evs1)) as (evs2 & E2 & F2).
      simpl in *.
      destruct (MW.Write sw w p j) as [j1 [n err]]. simpl in E1. subst j1.
      destruct err as [e|].
      * exists evs1. split; [reflexivity | now apply own_writes_weaken].
      * destruct (n =? len p)%Z.
        -- rewrite E2. exists (evs1 ++ evs2).
           split; [now rewrite app_assoc | now apply own_writes_app].
        -- exists evs1. split; [reflexivity | now apply own_writes_weaken].
Qed.

(** X3.  A write to any writer, however fan-out writers of both kinds are
    nested in it, only appends to what was written before, and what it
    appends are writes of the very bytes [p] to sinks at the tips of that
    writer: nothing is altered on the way, no other sink is touched and
    nothing is closed. *)
Theorem Write_own_sinks_only :
  forall (sw : Journal -> Writer -> string -> WriteResult)
         (w : Writer) (p : string) (j : Journal),
    exists evs : list Event,
      fst (MW.Write sw w p j) = j ++ evs
      /\ Forall (fun e => exists s, e = EvWrite s p /\ In s (sinks w)) evs.
Proof. intros. apply Write_appends_own_writes. Qed.

(** ** What an emit call writes *)

Lemma emit_journal_atomic :
  forall (rt : Runtime) (s0 : State) (out : Writer)
         (std sink stk : LogLevel) (fn : bool) (between : list Call)
         (c : Call) (L : LogLevel),
    initialized (vars s0) = false ->
    no_Close between = true ->
    emit_level c = Some L ->
    severity L ->
    atomic out = true ->
    let s1 := run_seq rt between (fst (Init out std sink stk fn s0)) in
    let flags :=
      if fn then Z.lor log_LstdFlags log_Lshortfile else log_LstdFlags in
    let line := log_line rt (getLogPrefix L) flags 2 (emit_message rt c) in
    let toStdout := (std <=? L)%N in
    let toOut :=
      (sink <=? L)%N && negb (toStdout && same_writer out os_Stdout) in
    let stdout_ok :=
      match sink_Write rt (journal s1) os_Stdout line with
      | (n, None) => (n =? len line)%Z
      | (_, Some _) => false
      end in
    journal (fst (run rt c s1))
    = journal s1
      ++ (if toStdout then [EvWrite os_Stdout line] else [])
      ++ (if toOut && (negb toStdout || stdout_ok)
          then [EvWrite out line] else [])
      ++ (if (stk <=? L)%N
          then [EvWrite out (fmt_Sprintln rt [VString (debug_Stack rt)])]
          else []).
Proof.
  intros rt s0 out std sink stk fn between c L H0 Hn Hl Hs Ha
         s1 flags line toStdout toOut stdout_ok.
  pose proof (run_emit_configured rt s0 out std sink stk fn between c L
                H0 Hn Hl Hs) as Hrun.
  cbv zeta in Hrun. fold s1 in Hrun. rewrite Hrun. clear Hrun.
  assert (Hlg : logger_of (vars s1) L = newLogger L out std sink flags)
    by (apply logger_after_Init; assumption).
  rewrite Hlg. clear Hlg. unfold stdout_ok, toOut, toStdout. clear stdout_ok toOut toStdout.
  unfold newLogger, after_stack, after_line, os_Stdout. simpl journal.
  destruct (std <=? L)%N, (sink <=? L)%N; simpl;
    destruct out as [ptr | ptr closer | |]; try discriminate; simpl;
    try destruct (Nat.eqb ptr 1); simpl; fold line;
    repeat match goal with
           | |- context [match sink_Write ?r ?j ?w ?p with _ => _ end] =>
               destruct (sink_Write r j w p) as [? [?|]]; simpl
           | |- context [if ?b then _ else _] => destruct b; simpl
           end;
    rewrite <- ?app_assoc, ?app_nil_r; reflexivity.
Qed.

(** X4.  The whole of what an emit call at a severity writes after [Init],
    when the output is a single sink: first the line, composed with the
    prefix of the level, the flags of [Init] and call depth 2, to
    [os.Stdout] if the level reaches the stdout cutoff, then the same line
    to the output if the level reaches the output cutoff, unless the output
    is [os.Stdout] already written to; last the stack text to the output if
    the level reaches the stack cutoff.  When both get the line, they are
    composed by the standard library's [io.MultiWriter], not by this
    package's: the output is skipped if the write to [os.Stdout] returns an
    error or a short count. *)
Theorem emit_journal_single_sink :
  forall (rt : Runtime) (s0 : State) (out : Writer)
         (std sink stk : LogLevel) (fn : bool) (between : list Call)
         (c : Call) (L : LogLevel),
    initialized (vars s0) = false ->
    no_Close between = true ->
    emit_level c = Some L ->
    severity L ->
    atomic out = true ->
    let s1 := run_seq rt between (fst (Init out std sink stk fn s0)) in
    let flags :=
      if fn then Z.lor log_LstdFlags log_Lshortfile else log_LstdFlags in
    let line := log_line rt (getLogPrefix L) flags 2 (emit_message rt c) in
    let toStdout := (std <=? L)%N in
    let toOut :=
      (sink <=? L)%N && negb (toStdout && same_writer out os_Stdout) in
    let stdout_ok :=
      match sink_Write rt (journal s1) os_Stdout line with
      | (n, None) => (n =? len line)%Z
      | (_, Some _) => false
      end in
    journal (fst (run rt c s1))
    = journal s1
      ++ (if toStdout then [EvWrite os_Stdout line] else [])
      ++ (if toOut && (negb toStdout || stdout_ok)
          then [EvWrite out line] else [])
      ++ (if (stk <=? L)%N
          then [EvWrite out (fmt_Sprintln rt [VString (debug_Stack rt)])]
          else []).
Proof. exact emit_journal_atomic. Qed.

(** Standard output is gone: the output, composed after it, does not get
    the line of an Error although both cutoffs are reached. *)
Lemma emit_journal_single_sink_witness :
  initialized (vars start) = false
  /\ no_Close [] = true
  /\ emit_level (CallError [VString "x"]) = Some LogLevelError
  /\ severity LogLevelError
  /\ atomic (Sink 8 false) = true
  /\ journal
       (fst (run stdout_down (CallError [VString "x"])
               (fst (Init (Sink 8 false) LogLevelTrace LogLevelTrace
                       5%N false start))))
     = [EvWrite os_Stdout (log_line stdout_down "ERROR|" 3 2 "x")].
Proof.
  assert (Hs : severity LogLevelError)
    by (unfold severity, LogLevelError, LogLevelCritical; lia).
  repeat (split; [first [reflexivity | assumption]|]).
  exact (emit_journal_single_sink stdout_down start (Sink 8 false)
           LogLevelTrace LogLevelTrace 5%N false []
           (CallError [VString "x"]) LogLevelError
           eq_refl eq_refl eq_refl Hs eq_refl).
Defined.

(** X5.  [Log] and [Logf] called with one of the level constants end as
    the function named after the level does, in every state, except that
    [Critical] and [Criticalf] exit with status 1 where [Log] would return
    from an initialized logger.  On an initialized logger and below the
    stack level they also write the same: the state after the call is the
    same.  (At or above the stack level the stack texts name different
    functions.) *)
Theorem Log_at_level_constant :
  forall (rt : Runtime) (format : string) (v : list Value) (s : State),
    (snd (Log rt LogLevelTrace v s) = snd (Trace rt v s)
     /\ snd (Logf rt LogLevelTrace format v s) = snd (Tracef rt format v s)
     /\ snd (Log rt LogLevelInfo v s) = snd (Info rt v s)
     /\ snd (Logf rt LogLevelInfo format v s) = snd (Infof rt format v s)
     /\ snd (Log rt LogLevelWarning v s) = snd (Warning rt v s)
     /\ snd (Logf rt LogLevelWarning format v s) = snd (Warningf rt format v s)
     /\ snd (Log rt LogLevelError v s) = snd (Error rt v s)
     /\ snd (Logf rt LogLevelError format v s) = snd (Errorf rt format v s)
     /\ snd (Critical rt v s)
        = match snd (Log rt LogLevelCritical v s) with
          | Returns _ => if initialized (vars s) then Exits 1%Z else Returns tt
          | o => o
          end
     /\ snd (Criticalf rt format v s)
        = match snd (Logf rt LogLevelCritical format v s) with
          | Returns _ => if initialized (vars s) then Exits 1%Z else Returns tt
          | o => o
          end)
    /\ (initialized (vars s) = true ->
        ((LogLevelTrace < logStack (vars s))%N ->
         fst (Log rt LogLevelTrace v s) = fst (Trace rt v s)
         /\ fst (Logf rt LogLevelTrace format v s) = fst (Tracef rt format v s))
        /\ ((LogLevelInfo < logStack (vars s))%N ->
            fst (Log rt LogLevelInfo v s) = fst (Info rt v s)
            /\ fst (Logf rt LogLevelInfo format v s) = fst (Infof rt format v s))
        /\ ((LogLevelWarning < logStack (vars s))%N ->
            fst (Log rt LogLevelWarning v s) = fst (Warning rt v s)
            /\ fst (Logf rt LogLevelWarning format v s)
               = fst (Warningf rt format v s))
        /\ ((LogLevelError < logStack (vars s))%N ->
            fst (Log rt LogLevelError v s) = fst (Error rt v s)
            /\ fst (Logf rt LogLevelError format v s)
               = fst (Errorf rt format v s))
        /\ ((LogLevelCritical < logStack (vars s))%N ->
            fst (Log rt LogLevelCritical v s) = fst (Critical rt v s)
            /\ fst (Logf rt LogLevelCritical format v s)
               = fst (Criticalf rt format v s))).
Proof.
  intros rt format v [g j].
  assert (Hall :
            forall (logger : Globals -> option Logger) level msg exits,
              (forall s', getLogger rt level s'
                          = (s', Returns (logger (vars s')))) ->
              let generic :=
                (g <- get_vars ;;
                 if negb (initialized g)
                 then log_Print rt [VError NotInitializedErr]
                 else log <- getLogger rt level ;; emit rt log level msg)
                  {| vars := g; journal := j |} in
              let named :=
                emit_fixed rt logger level msg exits
                  {| vars := g; journal := j |} in
              fst generic = fst named
              /\ snd named
                 = match snd generic with
                   | Returns _ =>
                       if exits && initialized g then Exits 1%Z else Returns tt
                   | o => o
                   end).
  { intros logger level msg exits Hget generic named.
    unfold generic, named, emit_fixed, bind, get_vars, ret, os_Exit. simpl.
    destruct (initialized g); simpl.
    - rewrite Hget. simpl.
      destruct (emit rt (logger g) level msg _) as [s' [[]|pv|code]];
        destruct exits; simpl; split; reflexivity.
    - destruct exits; split; reflexivity. }
  unfold Log, Logf, Trace, Tracef, Info, Infof, Warning, Warningf, Error,
    Errorf, Critical, Criticalf.
  split.
  - repeat split;
      match goal with
      | |- snd _ = snd (emit_fixed rt ?lg ?l ?m false _) =>
          destruct (Hall lg l m false ltac:(intro; reflexivity)) as [_ H];
          cbv zeta in H; rewrite H;
          match goal with |- ?o = _ => destruct o as [[]|?|?] end;
          reflexivity
      | |- snd (emit_fixed rt ?lg ?l ?m true _) = _ =>
          destruct (Hall lg l m true ltac:(intro; reflexivity)) as [_ H];
          exact H
      end.
  - intros _. repeat split;
      match goal with
      | |- fst _ = fst (emit_fixed rt ?lg ?l ?m ?e _) =>
          exact (proj1 (Hall lg l m e ltac:(intro; reflexivity)))
      end.
Qed.

(** Info is below the stack level Error: [Log] at Info and [Info] leave the
    same state. *)
Lemma Log_at_level_constant_witness :
  initialized
    (vars (fst (Init (Sink 8 false) LogLevelTrace LogLevelInfo LogLevelError
                  false start))) = true
  /\ (LogLevelInfo
      < logStack
          (vars (fst (Init (Sink 8 false) LogLevelTrace LogLevelInfo
                        LogLevelError false start))))%N
  /\ fst (Log demo LogLevelInfo [VString "x"]
            (fst (Init (Sink 8 false) LogLevelTrace LogLevelInfo LogLevelError
                    false start)))
     = fst (Info demo [VString "x"]
              (fst (Init (Sink 8 false) LogLevelTrace LogLevelInfo
                      LogLevelError false start))).
Proof.
  assert (Hk : (LogLevelInfo
                < logStack
                    (vars (fst (Init (Sink 8 false) LogLevelTrace LogLevelInfo
                                  LogLevelError false start))))%N)
    by reflexivity.
  split; [reflexivity|]. split; [exact Hk|].
  destruct (Log_at_level_constant demo "" [VString "x"]
              (fst (Init (Sink 8 false) LogLevelTrace LogLevelInfo
                      LogLevelError false start))) as [_ Hstate].
  destruct (Hstate eq_refl) as (_ & Hinfo & _).
  exact (proj1 (Hinfo Hk)).
Defined.

Lemma GetLogLevel_outcome rt str s :
  exists l j,
    GetLogLevel rt str s = ({| vars := vars s; journal := j |}, Returns l)
    /\ severity l.
Proof.
  destruct s as [g j0].
  unfold GetLogLevel, log_Println, Output, do_Write, bind, ret, severity,
    LogLevelTrace, LogLevelInfo, LogLevelWarning, LogLevelError,
    LogLevelCritical.
  repeat match goal with |- context [if ?b then _ else _] => destruct b end;
    simpl; eexists; eexists; (split; [reflexivity | lia]).
Qed.

(** X6.  The configuration is changed by [Init] and [Close] only: an emit
    call or [GetLogLevel] leaves every package variable as it was, in every
    state and however the call ends (by returning, by a panic or by the
    exit of the critical functions). *)
Theorem only_Init_and_Close_configure :
  forall (rt : Runtime) (c : Call) (s : State),
    emit_level c <> None \/ (exists str, c = CallGetLogLevel str) ->
    vars (fst (run rt c s)) = vars s.
Proof.
  intros rt c s [Hemit | (str & ->)].
  - destruct (initialized (vars s)) eqn:Hi.
    + apply run_keeps_vars; [assumption|].
      destruct c; try reflexivity. now elim Hemit.
    + destruct (emit_level c) as [L|] eqn:Hl; [|now elim Hemit].
      now rewrite (run_fallback rt c L s Hi Hl).
  - simpl. unfold bind.
    destruct (GetLogLevel_outcome rt str s) as (l & j & E & _).
    now rewrite E.
Qed.

Lemma only_Init_and_Close_configure_witness :
  (emit_level (CallLog 77%N [VString "x"]) <> None
   \/ exists str, CallLog 77%N [VString "x"] = CallGetLogLevel str)
  /\ vars (fst (run demo (CallLog 77%N [VString "x"])
                  (fst (Init os_Stdout LogLevelInfo LogLevelInfo LogLevelError
                          true start))))
     = vars (fst (Init os_Stdout LogLevelInfo LogLevelInfo LogLevelError
                    true start)).
Proof.
  assert (H : emit_level (CallLog 77%N [VString "x"]) <> None
              \/ exists str, CallLog 77%N [VString "x"] = CallGetLogLevel str)
    by (left; discriminate).
  split; [exact H|].
  exact (only_Init_and_Close_configure demo (CallLog 77%N [VString "x"])
           (fst (Init os_Stdout LogLevelInfo LogLevelInfo LogLevelError true
                   start)) H).
Defined.

(** X7.  While the logger is not initialized, every emit call, whatever
    the level byte passed to [Log] or [Logf] and also [Critical] and
    [Criticalf], has the default logger print the not-initialized notice
    once and returns: the panic for an invalid level and the exit of the
    critical functions both lie behind the initialized check. *)
Theorem uninitialized_calls_fall_back :
  forall (rt : Runtime) (c : Call) (s : State),
    initialized (vars s) = false ->
    emit_level c <> None ->
    run rt c s
    = ({| vars := vars s;
          journal :=
            journal s
            ++ [EvWrite os_Stderr
                  (log_line rt "" log_LstdFlags 2
                     (fmt_Sprint rt [VError NotInitializedErr]))] |},
       Returns RUnit).
Proof.
  intros rt c s Hi Hemit.
  destruct (emit_level c) as [L|] eqn:Hl; [|now elim Hemit].
  exact (run_fallback rt c L s Hi Hl).
Qed.

Lemma uninitialized_calls_fall_back_witness :
  initialized (vars start) = false
  /\ emit_level (CallLogf 200%N "%v" [VString "x"]) <> None
  /\ run demo (CallLogf 200%N "%v" [VString "x"]) start
     = ({| vars := zero_Globals;
           journal :=
             [EvWrite os_Stderr
                (log_line demo "" log_LstdFlags 2 "Logz is not initialized")] |},
        Returns RUnit).
Proof.
  assert (H : emit_level (CallLogf 200%N "%v" [VString "x"]) <> None)
    by discriminate.
  split; [reflexivity|]. split; [exact H|].
  exact (uninitialized_calls_fall_back demo (CallLogf 200%N "%v" [VString "x"])
           start eq_refl H).
Defined.

(** ** The life cycle *)

Lemma Close_after_Init rt s0 out std sink stk fn between r :
  initialized (vars s0) = false ->
  no_Close between = true ->
  exists j,
    Close rt r (run_seq rt between (fst (Init out std sink stk fn s0)))
    = ({| vars := set_initialized false (configured out std sink stk fn);
          journal := j ++ (if is_Closer out then [EvClose out] else []) |},
       match r with
       | Some rv => Panics rv
       | None => Returns (@None error)
       end)
    /\ (r = None ->
        j = journal (run_seq rt between (fst (Init out std sink stk fn s0)))).
Proof.
  intros H0 Hn.
  set (s1 := run_seq rt between (fst (Init out std sink stk fn s0))).
  assert (Hv : vars s1 = configured out std sink stk fn)
    by (apply vars_after_Init; assumption).
  assert (Hi : initialized (vars s1) = true) by now rewrite Hv.
  assert (Hw : write (vars s1) = Some out) by now rewrite Hv.
  rewrite <- Hv.
  destruct r as [rv|].
  - assert (Hs : severity LogLevelCritical) by (unfold severity; lia).
    pose proof (run_emit rt
                  (CallLog LogLevelCritical
                     [match rv with
                      | VError _ => rv
                      | _ => VError (fmt_Sprintf rt "%v" [rv])
                      end])
                  LogLevelCritical s1 out Hi Hw eq_refl Hs) as Hlog.
    simpl in Hlog. apply as_unit_returns in Hlog.
    eexists. split; [|discriminate].
    apply (Close_initialized rt (Some rv) s1 _ out Hi Hlog Hw).
  - exists (journal s1). split; [|reflexivity].
    apply (Close_initialized rt None s1 s1 out Hi eq_refl Hw).
Qed.

(** X8.  After [Close] the logger can be initialized again: a further
    [Close] returns [NotInitializedErr] and does nothing (notably it does
    not close the output a second time), and a further [Init] succeeds,
    writes nothing and installs its own configuration in full; nothing of
    the earlier one is left in the loggers, the stack level or the stored
    output.  This holds as well when the [Close] recovered a panic. *)
Theorem reinitialize_after_Close :
  forall (rt : Runtime) (s0 : State) (out : Writer)
         (std sink stk : LogLevel) (fn : bool) (between : list Call)
         (r r' : option Value)
         (out' : Writer) (std' sink' stk' : LogLevel) (fn' : bool),
    initialized (vars s0) = false ->
    no_Close between = true ->
    let s1 := run_seq rt between (fst (Init out std sink stk fn s0)) in
    let s2 := fst (Close rt r s1) in
    let s3 := fst (Init out' std' sink' stk' fn' s2) in
    Close rt r' s2 = (s2, Returns (Some NotInitializedErr))
    /\ snd (Init out' std' sink' stk' fn' s2) = Returns None
    /\ journal s3 = journal s2
    /\ initialized (vars s3) = true
    /\ logStack (vars s3) = stk'
    /\ write (vars s3) = Some out'
    /\ (forall L, severity L ->
          logger_of (vars s3) L
          = newLogger L out' std' sink'
              (if fn' then Z.lor log_LstdFlags log_Lshortfile
               else log_LstdFlags)).
Proof.
  intros rt s0 out std sink stk fn between r r' out' std' sink' stk' fn'
         H0 Hn s1 s2 s3.
  destruct (Close_after_Init rt s0 out std sink stk fn between r H0 Hn)
    as (j & Hclose & _).
  fold s1 in Hclose.
  assert (Hi2 : initialized (vars s2) = false)
    by (unfold s2; now rewrite Hclose).
  split; [now apply Close_uninitialized|].
  unfold s3. rewrite (Init_fresh _ _ _ _ _ _ Hi2). simpl.
  repeat split.
  intros L HL. now apply logger_of_configured.
Qed.

Lemma reinitialize_after_Close_witness :
  initialized (vars start) = false
  /\ no_Close [CallError [VString "x"]] = true
  /\ write
       (vars
          (fst (Init (File 7) LogLevelError LogLevelError LogLevelError true
                  (fst (Close demo (Some (VString "boom"))
                          (run_seq demo [CallError [VString "x"]]
                             (fst (Init (Sink 8 true) LogLevelTrace
                                     LogLevelTrace LogLevelTrace false
                                     start))))))))
     = Some (File 7).
Proof.
  repeat (split; [reflexivity|]).
  destruct (reinitialize_after_Close demo start (Sink 8 true) LogLevelTrace
              LogLevelTrace LogLevelTrace false [CallError [VString "x"]]
              (Some (VString "boom")) None
              (File 7) LogLevelError LogLevelError LogLevelError true
              eq_refl eq_refl) as (_ & _ & _ & _ & _ & Hw & _).
  exact Hw.
Defined.

(** X9.  [Close] closes the stored output only if that value itself is a
    closer.  An output composed by [MultiWriter] is not one: [Close] then
    writes and closes nothing, so the writers behind the composition stay
    open also when they are closers. *)
Theorem Close_leaves_composed_output_open :
  forall (rt : Runtime) (s0 : State) (ws : list Writer)
         (std sink stk : LogLevel) (fn : bool) (between : list Call),
    initialized (vars s0) = false ->
    no_Close between = true ->
    let s1 :=
      run_seq rt between (fst (Init (MW.MultiWriter ws) std sink stk fn s0)) in
    Close rt None s1
    = ({| vars := set_initialized false (vars s1); journal := journal s1 |},
       Returns None).
Proof.
  intros rt s0 ws std sink stk fn between H0 Hn s1.
  destruct (Close_after_Init rt s0 (MW.MultiWriter ws) std sink stk fn between
              None H0 Hn) as (j & Hclose & Hj).
  fold s1 in Hclose, Hj. rewrite Hclose, (Hj eq_refl).
  unfold s1. rewrite vars_after_Init by assumption.
  simpl. now rewrite app_nil_r.
Qed.

Lemma Close_leaves_composed_output_open_witness :
  initialized (vars start) = false
  /\ no_Close [] = true
  /\ journal
       (fst (Close demo None
               (fst (Init (MW.MultiWriter [File 7; Sink 8 true])
                       LogLevelTrace LogLevelTrace LogLevelCritical false
                       start))))
     = [].
Proof.
  repeat (split; [reflexivity|]).
  exact (f_equal (fun x => journal (fst x))
           (Close_leaves_composed_output_open demo start [File 7; Sink 8 true]
              LogLevelTrace LogLevelTrace LogLevelCritical false []
              eq_refl eq_refl)).
Defined.

(** ** Loggers, levels and routing *)

Lemma newLogger_fields L out std sink flags lg :
  newLogger L out std sink flags = Some lg ->
  l_prefix lg = getLogPrefix L /\ l_flag lg = flags.
Proof.
  unfold newLogger.
  destruct (std <=? L)%N, (sink <=? L)%N; simpl;
    try destruct (same_writer out os_Stdout); simpl;
    intro H; inversion H; split; reflexivity.
Qed.

(** X10.  Every logger that [Init] builds carries the prefix of its own
    severity; the prefixes are six characters long and differ from one
    severity to another, so that the start of a line tells its level.  Its
    flags always ask for date and time, and for the short file name exactly
    when [Init] was called with [logFileName]. *)
Theorem loggers_prefix_and_flags :
  forall (rt : Runtime) (s0 : State) (out : Writer)
         (std sink stk : LogLevel) (fn : bool) (between : list Call)
         (L : LogLevel) (lg : Logger),
    initialized (vars s0) = false ->
    no_Close between = true ->
    severity L ->
    let s1 := run_seq rt between (fst (Init out std sink stk fn s0)) in
    logger_of (vars s1) L = Some lg ->
    l_prefix lg = getLogPrefix L
    /\ String.length (l_prefix lg) = 6
    /\ Z.land (l_flag lg) log_LstdFlags = log_LstdFlags
    /\ Z.testbit (l_flag lg) 4 = fn
    /\ (forall (L' : LogLevel) (lg' : Logger),
          severity L' ->
          logger_of (vars s1) L' = Some lg' ->
          l_prefix lg' = l_prefix lg -> L' = L).
Proof.
  intros rt s0 out std sink stk fn between L lg H0 Hn HL s1 Hlg.
  unfold s1 in *. rewrite logger_after_Init in Hlg by assumption.
  apply newLogger_fields in Hlg as [Hp Hf].
  split; [exact Hp|]. rewrite Hp, Hf.
  split; [level_cases L HL; reflexivity|].
  split; [destruct fn; reflexivity|].
  split; [destruct fn; reflexivity|].
  intros L' lg' HL' Hlg' Heq.
  rewrite logger_after_Init in Hlg' by assumption.
  apply newLogger_fields in Hlg' as [Hp' _]. rewrite Hp' in Heq.
  level_cases L HL; level_cases L' HL'; first [reflexivity | discriminate Heq].
Qed.

Lemma loggers_prefix_and_flags_witness :
  initialized (vars start) = false
  /\ no_Close [] = true
  /\ severity LogLevelWarning
  /\ logger_of
       (vars (fst (Init (Sink 8 false) LogLevelCritical LogLevelInfo
                     LogLevelError true start)))
       LogLevelWarning
     = Some (log_New (Sink 8 false) " WARN|" 19)
  /\ Z.testbit (l_flag (log_New (Sink 8 false) " WARN|" 19)) 4 = true.
Proof.
  assert (Hs : severity LogLevelWarning)
    by (unfold severity, LogLevelWarning, LogLevelCritical; lia).
  repeat (split; [first [reflexivity | assumption]|]).
  destruct (loggers_prefix_and_flags demo start (Sink 8 false) LogLevelCritical
              LogLevelInfo LogLevelError true [] LogLevelWarning
              (log_New (Sink 8 false) " WARN|" 19) eq_refl eq_refl Hs eq_refl)
    as (_ & _ & _ & Hbit & _).
  exact Hbit.
Defined.

Lemma Log_returns_after_Init rt s0 out std sink stk fn between l format v :
  initialized (vars s0) = false ->
  no_Close between = true ->
  severity l ->
  snd (Log rt l v (run_seq rt between (fst (Init out std sink stk fn s0))))
  = Returns tt
  /\ snd (Logf rt l format v
            (run_seq rt between (fst (Init out std sink stk fn s0))))
     = Returns tt.
Proof.
  intros H0 Hn Hl. split.
  - pose proof (run_emit_configured rt s0 out std sink stk fn between
                  (CallLog l v) l H0 Hn eq_refl Hl) as Hrun.
    cbv zeta in Hrun. simpl is_Critical in Hrun. simpl run in Hrun.
    apply as_unit_returns in Hrun. now rewrite Hrun.
  - pose proof (run_emit_configured rt s0 out std sink stk fn between
                  (CallLogf l format v) l H0 Hn eq_refl Hl) as Hrun.
    cbv zeta in Hrun. simpl is_Critical in Hrun. simpl run in Hrun.
    apply as_unit_returns in Hrun. now rewrite Hrun.
Qed.

Lemma Critical_logger_has_Stdout out l sink flags :
  severity l ->
  exists lg,
    newLogger LogLevelCritical out l sink flags = Some lg
    /\ In os_Stdout (sinks (l_out lg)).
Proof.
  intro Hl. unfold severity in Hl. apply N.leb_le in Hl.
  unfold newLogger. rewrite Hl. simpl.
  destruct ((sink <=? LogLevelCritical)%N && negb (same_writer out os_Stdout)).
  - eexists. split; [reflexivity|]. simpl l_out.
    rewrite sinks_compose_Stdout. now left.
  - eexists. split; [reflexivity|]. now left.
Qed.

(** X11.  [GetLogLevel] returns for every string, and what it returns is
    one of the five severities.  So a level obtained from a name can be
    passed to [Log] and [Logf] after [Init] without the invalid-level
    panic, and as a stdout cutoff it can never silence Critical: the
    logger of Critical exists and writes to [os.Stdout]. *)
Theorem parsed_level_is_usable :
  forall (rt : Runtime) (str : string) (s : State),
    exists l : LogLevel,
      snd (GetLogLevel rt str s) = Returns l
      /\ severity l
      /\ (forall (s0 : State) (out : Writer) (std sink stk : LogLevel)
                 (fn : bool) (between : list Call) (format : string)
                 (v : list Value),
            initialized (vars s0) = false ->
            no_Close between = true ->
            let s1 := run_seq rt between (fst (Init out std sink stk fn s0)) in
            snd (Log rt l v s1) = Returns tt
            /\ snd (Logf rt l format v s1) = Returns tt)
      /\ (forall (out : Writer) (sink : LogLevel) (flags : Z),
            exists lg,
              newLogger LogLevelCritical out l sink flags = Some lg
              /\ In os_Stdout (sinks (l_out lg))).
Proof.
  intros rt str s.
  destruct (GetLogLevel_outcome rt str s) as (l & j & E & Hl).
  exists l. rewrite E. split; [reflexivity|]. split; [exact Hl|]. split.
  - intros s0 out std sink stk fn between format v H0 Hn s1.
    now apply Log_returns_after_Init.
  - intros out sink flags. now apply Critical_logger_has_Stdout.
Qed.

Lemma parsed_level_is_usable_witness :
  exists l : LogLevel,
    snd (GetLogLevel demo "verbose" start) = Returns l
    /\ severity l
    /\ snd (Log demo l [VString "x"]
              (fst (Init (Sink 8 false) l l l false start)))
       = Returns tt.
Proof.
  destruct (parsed_level_is_usable demo "verbose" start)
    as (l & Hret & Hsev & Hlog & _).
  exists l. split; [exact Hret|]. split; [exact Hsev|].
  exact (proj1 (Hlog start (Sink 8 false) l l l false [] "" [VString "x"]
                  eq_refl eq_refl)).
Defined.

(** X12.  As long as the writes to [os.Stdout] succeed, the cutoffs are
    thresholds for an output that is a single sink: a sink written to by
    an emit call at some level is written to by an emit call at every
    higher severity as well.  (The proviso is needed: the output is
    composed behind [os.Stdout] only at the levels that reach the stdout
    cutoff, and is skipped there when that write fails.) *)
Theorem routing_is_monotone :
  forall (rt : Runtime) (s0 : State) (out : Writer)
         (std sink stk : LogLevel) (fn : bool) (between : list Call)
         (c c' : Call) (L L' : LogLevel) (evs evs' : list Event),
    initialized (vars s0) = false ->
    no_Close between = true ->
    emit_level c = Some L ->
    emit_level c' = Some L' ->
    severity L' ->
    (L <= L')%N ->
    atomic out = true ->
    (forall j p, sink_Write rt j os_Stdout p = (len p, None)) ->
    let s1 := run_seq rt between (fst (Init out std sink stk fn s0)) in
    journal (fst (run rt c s1)) = journal s1 ++ evs ->
    journal (fst (run rt c' s1)) = journal s1 ++ evs' ->
    forall w p, In (EvWrite w p) evs -> exists p', In (EvWrite w p') evs'.
Proof.
  intros rt s0 out std sink stk fn between c c' L L' evs evs'
         H0 Hn Hl Hl' Hs' Hle Ha Hok s1 Hevs Hevs' w p Hin.
  assert (Hs : severity L) by (unfold severity in *; lia).
  pose proof (emit_journal_atomic rt s0 out std sink stk fn between c L
                H0 Hn Hl Hs Ha) as HJ.
  pose proof (emit_journal_atomic rt s0 out std sink stk fn between c' L'
                H0 Hn Hl' Hs' Ha) as HJ'.
  cbv zeta in HJ, HJ'. fold s1 in HJ, HJ'.
  rewrite HJ in Hevs. rewrite HJ' in Hevs'.
  apply app_inv_head in Hevs. apply app_inv_head in Hevs'.
  subst evs evs'. clear HJ HJ'.
  rewrite !Hok in *. rewrite !Z.eqb_refl, !orb_true_r, !andb_true_r in *.
  destruct (std <=? L)%N eqn:E1, (std <=? L')%N eqn:E2;
    try (apply N.leb_le in E1; apply N.leb_gt in E2; lia);
    destruct (sink <=? L)%N eqn:E3, (sink <=? L')%N eqn:E4;
    try (apply N.leb_le in E3; apply N.leb_gt in E4; lia);
    destruct (stk <=? L)%N eqn:E5, (stk <=? L')%N eqn:E6;
    try (apply N.leb_le in E5; apply N.leb_gt in E6; lia);
    destruct (same_writer out os_Stdout) eqn:Es;
    try (apply same_writer_Stdout_eq in Es; subst out);
    simpl in *;
    repeat match goal with
           | H : _ \/ _ |- _ => destruct H
           | H : False |- _ => destruct H
           | H : EvWrite _ _ = EvWrite _ _ |- _ => inversion H; subst; clear H
           end;
    eauto 6.
Qed.

Lemma routing_is_monotone_witness :
  initialized (vars start) = false
  /\ no_Close [] = true
  /\ emit_level (CallInfo [VString "a"]) = Some LogLevelInfo
  /\ emit_level (CallError [VString "b"]) = Some LogLevelError
  /\ severity LogLevelError
  /\ (LogLevelInfo <= LogLevelError)%N
  /\ atomic (Sink 8 false) = true
  /\ (forall j p, sink_Write demo j os_Stdout p = (len p, None))
  /\ exists p', In (EvWrite (Sink 8 false) p')
                  [EvWrite os_Stdout (log_line demo "ERROR|" 3 2 "b");
                   EvWrite (Sink 8 false) (log_line demo "ERROR|" 3 2 "b")].
Proof.
  assert (Hs : severity LogLevelError)
    by (unfold severity, LogLevelError, LogLevelCritical; lia).
  assert (Hle : (LogLevelInfo <= LogLevelError)%N)
    by (unfold LogLevelInfo, LogLevelError; lia).
  assert (Hok : forall j p, sink_Write demo j os_Stdout p = (len p, None))
    by reflexivity.
  do 8 (split; [first [reflexivity | assumption]|]).
  exact (routing_is_monotone demo start (Sink 8 false) LogLevelWarning
           LogLevelTrace 5%N false []
           (CallInfo [VString "a"]) (CallError [VString "b"])
           LogLevelInfo LogLevelError
           [EvWrite (Sink 8 false) (log_line demo " INFO|" 3 2 "a")]
           [EvWrite os_Stdout (log_line demo "ERROR|" 3 2 "b");
            EvWrite (Sink 8 false) (log_line demo "ERROR|" 3 2 "b")]
           eq_refl eq_refl eq_refl eq_refl Hs Hle eq_refl Hok
           eq_refl eq_refl
           (Sink 8 false) (log_line demo " INFO|" 3 2 "a")
           (or_introl eq_refl)).
Defined.

(** X13.  Below the stack cutoff an emit call writes its line and nothing
    else, whatever the output is made of: all it adds to the journal are
    writes of the line of the message, composed with the prefix of the
    level and the flags of [Init], to sinks of the destination resolved
    for the level.  With a stack cutoff above Critical no call writes the
    stack. *)
Theorem no_stack_below_cutoff :
  forall (rt : Runtime) (s0 : State) (out : Writer)
         (std sink stk : LogLevel) (fn : bool) (between : list Call)
         (c : Call) (L : LogLevel),
    initialized (vars s0) = false ->
    no_Close between = true ->
    emit_level c = Some L ->
    severity L ->
    (L < stk)%N ->
    let s1 := run_seq rt between (fst (Init out std sink stk fn s0)) in
    let flags :=
      if fn then Z.lor log_LstdFlags log_Lshortfile else log_LstdFlags in
    let line := log_line rt (getLogPrefix L) flags 2 (emit_message rt c) in
    exists evs : list Event,
      journal (fst (run rt c s1)) = journal s1 ++ evs
      /\ Forall
           (fun e =>
              exists s,
                e = EvWrite s line
                /\ In s (sinks_of (option_map l_out (logger_of (vars s1) L))))
           evs.
Proof.
  intros rt s0 out std sink stk fn between c L H0 Hn Hl Hs Hstk s1 flags line.
  pose proof (run_emit_configured rt s0 out std sink stk fn between c L
                H0 Hn Hl Hs) as Hrun.
  cbv zeta in Hrun. fold s1 in Hrun. rewrite Hrun. clear Hrun.
  apply N.leb_gt in Hstk. rewrite Hstk. simpl.
  assert (Hlg : logger_of (vars s1) L = newLogger L out std sink flags)
    by (apply logger_after_Init; assumption).
  destruct (logger_of (vars s1) L) as [lg|]; simpl.
  - symmetry in Hlg. apply newLogger_fields in Hlg as [Hp Hf].
    rewrite Hp, Hf. fold line.
    apply Write_appends_own_writes.
  - exists []. split; [now rewrite app_nil_r | constructor].
Qed.

Lemma no_stack_below_cutoff_witness :
  initialized (vars start) = false
  /\ no_Close [] = true
  /\ emit_level (CallInfo [VString "x"]) = Some LogLevelInfo
  /\ severity LogLevelInfo
  /\ (LogLevelInfo < LogLevelError)%N
  /\ exists evs : list Event,
       journal
         (fst (run demo (CallInfo [VString "x"])
                 (fst (Init (MW.MultiWriter [Sink 3 false; Sink 8 false])
                         LogLevelWarning LogLevelTrace LogLevelError false
                         start))))
       = [] ++ evs
       /\ Forall
            (fun e =>
               exists s,
                 e = EvWrite s (log_line demo " INFO|" 3 2 "x")
                 /\ In s [Sink 3 false; Sink 8 false])
            evs.
Proof.
  assert (Hs : severity LogLevelInfo)
    by (unfold severity, LogLevelInfo, LogLevelCritical; lia).
  assert (Hk : (LogLevelInfo < LogLevelError)%N) by reflexivity.
  repeat (split; [first [reflexivity | assumption]|]).
  exact (no_stack_below_cutoff demo start
           (MW.MultiWriter [Sink 3 false; Sink 8 false])
           LogLevelWarning LogLevelTrace LogLevelError false []
           (CallInfo [VString "x"]) LogLevelInfo eq_refl eq_refl eq_refl Hs Hk).
Defined.




(** X15.  What the sinks return never reaches the caller of an emit
    function: after [Init], a call at a severity ends the same way in every
    run-time, by returning, or by the exit with status 1 for the two
    critical functions, and never by a panic.  The errors of
    [Output] and [Fprintln] are dropped. *)
Theorem sink_failures_are_swallowed :
  forall (rt : Runtime) (s0 : State) (out : Writer)
         (std sink stk : LogLevel) (fn : bool) (between : list Call)
         (c : Call) (L : LogLevel),
    initialized (vars s0) = false ->
    no_Close between = true ->
    emit_level c = Some L ->
    severity L ->
    let s1 := run_seq rt between (fst (Init out std sink stk fn s0)) in
    snd (run rt c s1) = (if is_Critical c then Exits 1%Z else Returns RUnit)
    /\ vars (fst (run rt c s1)) = vars s1.
Proof.
  intros rt s0 out std sink stk fn between c L H0 Hn Hl Hs s1.
  pose proof (run_emit_configured rt s0 out std sink stk fn between c L
                H0 Hn Hl Hs) as Hrun.
  cbv zeta in Hrun. fold s1 in Hrun. rewrite Hrun. now split.
Qed.

(** Every sink of the output fails and standard output is gone: the call
    returns all the same. *)
Lemma sink_failures_are_swallowed_witness :
  initialized (vars start) = false
  /\ no_Close [] = true
  /\ emit_level (CallLogf LogLevelError "%v" [VString "x"]) = Some LogLevelError
  /\ severity LogLevelError
  /\ sink_Write stdout_down [] os_Stdout "x"
     = (0%Z, Some "write /dev/stdout: broken pipe")
  /\ sink_Write stdout_down [] (Sink 3 false) "x" = (0%Z, Some "sink failed")
  /\ snd (run stdout_down (CallLogf LogLevelError "%v" [VString "x"])
            (fst (Init (Sink 3 false) LogLevelTrace LogLevelTrace LogLevelTrace
                    false start)))
     = Returns RUnit.
Proof.
  assert (Hs : severity LogLevelError)
    by (unfold severity, LogLevelError, LogLevelCritical; lia).
  repeat (split; [first [reflexivity | assumption]|]).
  exact (proj1 (sink_failures_are_swallowed stdout_down start (Sink 3 false)
                  LogLevelTrace LogLevelTrace LogLevelTrace false []
                  (CallLogf LogLevelError "%v" [VString "x"]) LogLevelError
                  eq_refl eq_refl eq_refl Hs)).
Defined.
